(** * Verification of the scraping core of playwright-task

    Shallow embedding of
      - [src/helpers/playwright_browser.py]  (extract_text, extract_number),
      - [src/models/lolalytics_parser.py]    (parse_element,
        parse_common_section, parse_champion_build),
      - [src/models/opgg_parser.py]          (_parse_win_loss).

    Python exceptions are values of [result]; the live browser page is an
    abstract session driven through an interface of page operations; the
    [while True] loop of parse_common_section is run with a budget of
    iterations, [None] meaning that the budget is used up and the loop is
    still running. *)

From Stdlib Require Import ZArith String Ascii List Bool Lia.
From stdpp Require Import base option list gmap sets strings pretty.

Set Warnings "-register-all".

Local Open Scope string_scope.
Local Open Scope Z_scope.

(** ** Exceptions and results *)

Inductive exn : Type :=
  | AttributeError
  | IndexError
  | ValueError
  | TypeError
  | TimeoutError
  | PageError (msg : string).

Inductive result (A : Type) : Type :=
  | Ok (a : A)
  | Raise (e : exn).
Arguments Ok {A} a.
Arguments Raise {A} e.

Definition rbind {A B} (r : result A) (k : A -> result B) : result B :=
  match r with
  | Ok a => k a
  | Raise e => Raise e
  end.

Declare Scope result_scope.
Delimit Scope result_scope with result.
Notation "x <-r e1 ;; e2" := (rbind e1 (fun x => e2))
  (at level 100, e1 at next level, right associativity) : result_scope.

(** [try: r except <caught>: h]. *)
Definition try_except {A} (r : result A) (caught : exn -> bool)
    (h : exn -> result A) : result A :=
  match r with
  | Ok a => Ok a
  | Raise e => if caught e then h e else Raise e
  end.

Definition exn_str (e : exn) : string :=
  match e with
  | AttributeError => "AttributeError"
  | IndexError => "list index out of range"
  | ValueError => "ValueError"
  | TypeError => "TypeError"
  | TimeoutError => "Timeout exceeded"
  | PageError msg => msg
  end.

(** ** Text

    A Python [str] is a [string] whose characters stand for code points
    below 256.  Case mapping is modelled on the ASCII letters. *)

Definition code (c : ascii) : N := N_of_ascii c.

Definition in_range (lo hi : N) (c : ascii) : bool :=
  (N.leb lo (code c) && N.leb (code c) hi)%bool.

(** [str.isspace] for one character. *)
Definition py_isspace (c : ascii) : bool :=
  (in_range 9 13 c || in_range 28 32 c
   || N.eqb (code c) 133 || N.eqb (code c) 160)%bool.

(** White space of JavaScript's [String.prototype.trim], among the
    characters below U+0100.  Of the characters on which [trim] and
    [str.strip] differ, U+001C to U+001F and U+0085 (white space for Python
    only) are in that range; U+FEFF (white space for JavaScript only) is
    not, and a text that holds it is outside the model. *)
Definition js_iswhite (c : ascii) : bool :=
  (in_range 9 13 c || N.eqb (code c) 32 || N.eqb (code c) 160)%bool.

Definition is_ascii_digit (c : ascii) : bool := in_range 48 57 c.

(** [str.isdigit] for one character: the decimal digits and the
    superscripts 1, 2, 3 of Latin-1. *)
Definition py_isdigit (c : ascii) : bool :=
  (is_ascii_digit c || N.eqb (code c) 178 || N.eqb (code c) 179
   || N.eqb (code c) 185)%bool.

Definition digit_val (c : ascii) : Z := Z.of_N (code c) - 48.

Fixpoint lstrip (ws : ascii -> bool) (s : string) : string :=
  match s with
  | EmptyString => EmptyString
  | String c r => if ws c then lstrip ws r else s
  end.

Fixpoint rstrip (ws : ascii -> bool) (s : string) : string :=
  match s with
  | EmptyString => EmptyString
  | String c r =>
      match rstrip ws r with
      | EmptyString => if ws c then EmptyString else String c EmptyString
      | r' => String c r'
      end
  end.

(** [s.strip()] *)
Definition py_strip (s : string) : string := rstrip py_isspace (lstrip py_isspace s).

(** [s.trim()] in the page. *)
Definition js_trim (s : string) : string := rstrip js_iswhite (lstrip js_iswhite s).

(** [''.join(c for c in s if keep(c))] *)
Fixpoint str_filter (keep : ascii -> bool) (s : string) : string :=
  match s with
  | EmptyString => EmptyString
  | String c r => if keep c then String c (str_filter keep r) else str_filter keep r
  end.

(** [s.split(sep)] for a one-character separator. *)
Fixpoint py_split (sep : ascii) (s : string) : list string :=
  match s with
  | EmptyString => [EmptyString]
  | String c r =>
      if Ascii.eqb c sep then EmptyString :: py_split sep r
      else match py_split sep r with
           | h :: t => String c h :: t
           | [] => [String c EmptyString]
           end
  end.

Definition ascii_upper (c : ascii) : ascii :=
  if in_range 97 122 c then ascii_of_N (code c - 32) else c.

Definition ascii_lower (c : ascii) : ascii :=
  if in_range 65 90 c then ascii_of_N (code c + 32) else c.

Fixpoint str_map (f : ascii -> ascii) (s : string) : string :=
  match s with
  | EmptyString => EmptyString
  | String c r => String (f c) (str_map f r)
  end.

(** [s.capitalize()] *)
Definition py_capitalize (s : string) : string :=
  match s with
  | EmptyString => EmptyString
  | String c r => String (ascii_upper c) (str_map ascii_lower r)
  end.

(** Truth value of a [str]. *)
Definition str_truthy (s : string) : bool :=
  match s with EmptyString => false | _ => true end.

(** [l[i]] *)
Definition py_index {A} (l : list A) (i : nat) : result A :=
  match l !! i with
  | Some x => Ok x
  | None => Raise IndexError
  end.

(** *** int(str)

    White space around the number is skipped, one sign is allowed, and the
    digits may be grouped by single underscores.  The white space [int]
    skips is not that of [str.strip]: the characters of [str.isspace] above
    U+007F are turned into spaces before the parse, which then skips the
    ASCII white space (tab to carriage return, and the space) only.  The
    separators U+001C to U+001F are not skipped: [int] raises ValueError on
    a string that has one. *)

Definition int_isspace (c : ascii) : bool :=
  (in_range 9 13 c || N.eqb (code c) 32
   || N.eqb (code c) 133 || N.eqb (code c) 160)%bool.

Fixpoint int_digits (acc : Z) (after_digit : bool) (s : string) : option Z :=
  match s with
  | EmptyString => if after_digit then Some acc else None
  | String c r =>
      if is_ascii_digit c then int_digits (10 * acc + digit_val c) true r
      else if Ascii.eqb c "_" then
        (if after_digit then int_digits acc false r else None)
      else None
  end.

Definition int_of_digits (neg : bool) (d : string) : result Z :=
  match int_digits 0 false d with
  | Some n => Ok (if neg then - n else n)
  | None => Raise ValueError
  end.

Definition py_int (s : string) : result Z :=
  match rstrip int_isspace (lstrip int_isspace s) with
  | String "-" d => int_of_digits true d
  | String "+" d => int_of_digits false d
  | d => int_of_digits false d
  end.

(** *** float(str) on the residue alphabet

    extract_number passes to [float] only strings made of digits, '.' and
    '-'.  On that alphabet [float] accepts an optional '-' followed by
    decimal digits with at most one point and at least one digit.  The
    value is kept as the exact decimal read; Python rounds it to the
    nearest double. *)

Record decimal : Type := Decimal {
  dec_negative : bool;
  dec_digits : Z;        (* all digits read, point removed *)
  dec_scale : nat        (* number of digits after the point *)
}.

(** digits after the point *)
Fixpoint float_frac_part (acc : Z) (n k : nat) (s : string) : option (Z * nat * nat) :=
  match s with
  | EmptyString => Some (acc, n, k)
  | String c r =>
      if is_ascii_digit c then float_frac_part (10 * acc + digit_val c) (S n) (S k) r
      else None
  end.

(** digits before the point; [n] counts the digits read *)
Fixpoint float_int_part (acc : Z) (n : nat) (s : string) : option (Z * nat * nat) :=
  match s with
  | EmptyString => Some (acc, n, 0%nat)
  | String c r =>
      if is_ascii_digit c then float_int_part (10 * acc + digit_val c) (S n) r
      else if Ascii.eqb c "." then float_frac_part acc n 0 r
      else None
  end.

Definition py_float (s : string) : result decimal :=
  let unsigned (neg : bool) (d : string) : result decimal :=
    match float_int_part 0 0 d with
    | Some (m, S _, k) => Ok (Decimal neg m k)
    | _ => Raise ValueError
    end in
  match s with
  | String "-" d => unsigned true d
  | d => unsigned false d
  end.

(** ** OP.GG: _parse_win_loss (opgg_parser.py, lines 54-65) *)

Definition caught_ValueError_IndexError (e : exn) : bool :=
  match e with
  | ValueError | IndexError => true
  | _ => false
  end.

Definition _parse_win_loss (wl_data : list string)
    : result (option Z * option Z) :=
  if (match wl_data with [] => true | _ => false end
      || Nat.ltb (length wl_data) 2)%bool
  then Ok (None, None)
  else
    try_except
      (wins_str <-r py_index wl_data 0 ;;
       losses_str <-r py_index wl_data 2 ;;
       wins <-r (if str_truthy wins_str then n <-r py_int wins_str ;; Ok (Some n)
                 else Ok None) ;;
       losses <-r (if str_truthy losses_str then n <-r py_int losses_str ;; Ok (Some n)
                   else Ok None) ;;
       Ok (wins, losses))%result
      caught_ValueError_IndexError
      (fun _ => Ok (None, None)).

(** ** DOM elements and logging *)

(** An element handle as the parsers use it: its text, its attributes and
    the descendants a selector finds below it. *)
Inductive ElementHandle : Type := Element {
  node_id : nat;
  text_content : option string;
  get_attribute : string -> option string;
  query_selector : string -> result (option ElementHandle);
  query_selector_all : string -> list ElementHandle
}.

Inductive level : Type := WARNING | ERROR.

Definition LogRecord : Type := level * string.

(** ** PlaywrightBrowser.extract_text (playwright_browser.py, lines 49-56)

    [page_query] is [self.page.query_selector], used when no parent is
    given. *)
Definition extract_text_body
    (page_query : string -> result (option ElementHandle))
    (selector : string) (parent : option ElementHandle)
    : result (option string) :=
  (element <-r match parent with
               | Some p => query_selector p selector
               | None => page_query selector
               end ;;
   match element with
   | Some el =>
       match text_content el with
       | Some t => Ok (Some (py_strip t))
       | None => Raise AttributeError
       end
   | None => Ok None
   end)%result.

Definition extract_text
    (page_query : string -> result (option ElementHandle))
    (selector : string) (parent : option ElementHandle)
    : option string * list LogRecord :=
  match extract_text_body page_query selector parent with
  | Ok v => (v, [])
  | Raise e => (None, [(ERROR, "Error extracting text: " +:+ exn_str e)])
  end.

(** ** PlaywrightBrowser.extract_number (playwright_browser.py, lines 58-68) *)

Definition number_char (c : ascii) : bool :=
  (py_isdigit c || Ascii.eqb c "." || Ascii.eqb c "-")%bool.

Definition extract_number_body (text : option string) : result (option decimal) :=
  match text with
  | Some t =>
      if str_truthy t then
        let cleaned := str_filter number_char t in
        if str_truthy cleaned then (d <-r py_float cleaned ;; Ok (Some d))%result
        else Ok None
      else Ok None
  | None => Ok None
  end.

Definition extract_number
    (page_query : string -> result (option ElementHandle))
    (selector : string) (parent : option ElementHandle)
    : option decimal * list LogRecord :=
  let '(text, logs) := extract_text page_query selector parent in
  match extract_number_body text with
  | Ok v => (v, logs)
  | Raise e => (None, (logs ++ [(ERROR, "Error extracting number: " +:+ exn_str e)])%list)
  end.

(** ** Field tables and records *)

(** The values a field can take ([Any] in the source). *)
Inductive value : Type :=
  | VNone
  | VStr (s : string)
  | VNum (d : decimal).

Definition Transform : Type := value -> result value.

(** [(selector, value_type, transform)] *)
Definition FieldSpec : Type := option string * option string * option Transform.

(** A [dict] with [str] keys, in insertion order. *)
Definition dict (V : Type) : Type := list (string * V).

(** [d[k] = v] *)
Fixpoint dict_set {V} (d : dict V) (k : string) (v : V) : dict V :=
  match d with
  | [] => [(k, v)]
  | (k', v') :: r =>
      if String.eqb k' k then (k', v) :: r else (k', v') :: dict_set r k v
  end.

Fixpoint dict_get {V} (d : dict V) (k : string) : option V :=
  match d with
  | [] => None
  | (k', v) :: r => if String.eqb k' k then Some v else dict_get r k
  end.

(** A record class: its name and its constructor from keyword arguments,
    which validates and may raise. *)
Record Schema (Rec : Type) : Type := {
  schema_name : string;
  construct : dict value -> result Rec
}.
Arguments schema_name {Rec} _.
Arguments construct {Rec} _ _.

Definition value_of_text (t : option string) : value :=
  match t with Some s => VStr s | None => VNone end.

Definition value_of_number (n : option decimal) : value :=
  match n with Some d => VNum d | None => VNone end.

(** ** LolalyticsParser.parse_element (lolalytics_parser.py, lines 24-42) *)

(** Lines 30-33: the raw value of one field. *)
Definition raw_value
    (page_query : string -> result (option ElementHandle))
    (element : ElementHandle) (spec : FieldSpec)
    : result value * list LogRecord :=
  let '(selector, value_type, transform) := spec in
  match selector with
  | Some (String _ _ as sel) =>
      match value_type with
      | Some "text" =>
          let '(t, logs) := extract_text page_query sel (Some element) in
          (Ok (value_of_text t), logs)
      | Some "number" =>
          let '(n, logs) := extract_number page_query sel (Some element) in
          (Ok (value_of_number n), logs)
      | _ => (Raise ValueError, [])
      end
  | _ =>
      (match transform with
       | Some t => t VNone
       | None => Ok VNone
       end, [])
  end.

(** Lines 30-35: the final value of one field. *)
Definition field_value
    (page_query : string -> result (option ElementHandle))
    (element : ElementHandle) (spec : FieldSpec)
    : result value * list LogRecord :=
  let '(raw, logs) := raw_value page_query element spec in
  ((v <-r raw ;;
    match snd spec with
    | Some t => t v
    | None => Ok v
    end)%result, logs).

(** Lines 29-36: the loop over [fields.items()]. *)
Fixpoint parse_fields
    (page_query : string -> result (option ElementHandle))
    (element : ElementHandle) (fields : dict FieldSpec) (values : dict value)
    : result (dict value) * list LogRecord :=
  match fields with
  | [] => (Ok values, [])
  | (field_name, spec) :: rest =>
      let '(r, logs) := field_value page_query element spec in
      match r with
      | Ok v =>
          let '(r', logs') :=
            parse_fields page_query element rest (dict_set values field_name v) in
          (r', (logs ++ logs')%list)
      | Raise e => (Raise e, logs)
      end
  end.

(** The body of the [try]. *)
Definition parse_element_body {Rec}
    (page_query : string -> result (option ElementHandle))
    (element : ElementHandle) (schema_cls : Schema Rec) (fields : dict FieldSpec)
    : result Rec * list LogRecord :=
  let '(r, logs) := parse_fields page_query element fields [] in
  ((values <-r r ;; construct schema_cls values)%result, logs).

Definition parse_element {Rec}
    (page_query : string -> result (option ElementHandle))
    (element : ElementHandle) (schema_cls : Schema Rec) (fields : dict FieldSpec)
    : option Rec * list LogRecord :=
  let '(r, logs) := parse_element_body page_query element schema_cls fields in
  match r with
  | Ok rec => (Some rec, logs)
  | Raise e =>
      (None,
       (logs ++ [(WARNING, "Failed to parse element into "
                           +:+ schema_name schema_cls +:+ ": " +:+ exn_str e)])%list)
  end.

(** ** The live page

    What the parsers ask of Playwright's [Page].  Scroll metrics are read
    and written through the node a handle points to; [op_tick] is the time
    between two evaluations of a [wait_for_function] predicate, and
    [op_polls timeout] the number of evaluations the timeout leaves room
    for after the first one. *)
Record PageOps (Session : Type) : Type := {
  op_new_page : Session -> result unit * Session;
  op_goto : string -> Session -> result unit * Session;
  op_mouse_wheel : Z -> Z -> Session -> Session;
  op_wait_for_timeout : Z -> Session -> Session;
  op_wait_for_selector : string -> Z -> Session -> result unit * Session;
  op_query_selector : string -> Session -> option ElementHandle;
  op_query_selector_all : string -> Session -> list ElementHandle;
  op_scrollLeft : nat -> Session -> Z;
  op_clientWidth : nat -> Session -> Z;
  op_scrollWidth : nat -> Session -> Z;
  op_set_scrollLeft : nat -> Z -> Session -> Session;
  op_click : string -> Session -> result unit * Session;
  op_tick : Session -> Session;
  op_polls : Z -> nat;
  op_close : Session -> Session
}.
Arguments op_new_page {Session} _ _.
Arguments op_goto {Session} _ _ _.
Arguments op_mouse_wheel {Session} _ _ _ _.
Arguments op_wait_for_timeout {Session} _ _ _.
Arguments op_wait_for_selector {Session} _ _ _ _.
Arguments op_query_selector {Session} _ _ _.
Arguments op_query_selector_all {Session} _ _ _.
Arguments op_scrollLeft {Session} _ _ _.
Arguments op_clientWidth {Session} _ _ _.
Arguments op_scrollWidth {Session} _ _ _.
Arguments op_set_scrollLeft {Session} _ _ _ _.
Arguments op_click {Session} _ _ _.
Arguments op_tick {Session} _ _.
Arguments op_polls {Session} _ _.
Arguments op_close {Session} _ _.

(** The calls made on the page, in the order they are made. *)
Inductive PageCall : Type :=
  | CallNewPage
  | CallGoto (url : string)
  | CallMouseWheel (dx dy : Z)
  | CallWaitForTimeout (ms : Z)
  | CallWaitForSelector (selector : string) (timeout : Z)
  | CallQuerySelector (selector : string)
  | CallQuerySelectorAll (selector : string)
  | CallEvaluateScroll (node : nat)
  | CallEvaluateExhausted (node : nat)
  | CallClick (selector : string)
  | CallWaitForFunction (selector old_check : string) (timeout : Z)
  | CallClose.

(** The state the parser runs in: the browser session, [self.page] being
    set or not, the log and the calls made so far. *)
Record World (Session : Type) : Type := mkWorld {
  session : Session;
  self_page : bool;
  log : list LogRecord;
  calls : list PageCall
}.
Arguments mkWorld {Session} _ _ _ _.
Arguments session {Session} _.
Arguments self_page {Session} _.
Arguments log {Session} _.
Arguments calls {Session} _.

(** A computation on the world that may raise; [None] when the iteration
    budget of a [while True] loop is used up. *)
Definition M (Session A : Type) : Type :=
  World Session -> option (result A * World Session).

Definition mret {Session A} (a : A) : M Session A :=
  fun w => Some (Ok a, w).

Definition mbind {Session A B} (m : M Session A) (k : A -> M Session B)
    : M Session B :=
  fun w =>
    match m w with
    | None => None
    | Some (Ok a, w') => k a w'
    | Some (Raise e, w') => Some (Raise e, w')
    end.

Declare Scope world_scope.
Delimit Scope world_scope with world.
Notation "x <-w e1 ;; e2" := (mbind e1 (fun x => e2))
  (at level 100, e1 at next level, right associativity) : world_scope.
Notation "e1 ;;w e2" := (mbind e1 (fun _ => e2))
  (at level 100, right associativity) : world_scope.

Definition of_result {Session A} (r : result A) : M Session A :=
  fun w => Some (r, w).

Definition logging {Session} (lvl : level) (msg : string) : M Session unit :=
  fun w => Some (Ok tt, mkWorld (session w) (self_page w)
                                (log w ++ [(lvl, msg)])%list (calls w)).

Definition emit_logs {Session} (logs : list LogRecord) : M Session unit :=
  fun w => Some (Ok tt, mkWorld (session w) (self_page w)
                                (log w ++ logs)%list (calls w)).

(** A page operation that changes the session and may raise. *)
Definition page_do {Session} (c : PageCall)
    (f : Session -> result unit * Session) : M Session unit :=
  fun w =>
    let '(r, s) := f (session w) in
    Some (r, mkWorld s (self_page w) (log w) (calls w ++ [c])%list).

(** A page operation that reads the session. *)
Definition page_read {Session A} (c : PageCall) (f : Session -> A) : M Session A :=
  fun w =>
    Some (Ok (f (session w)),
          mkWorld (session w) (self_page w) (log w) (calls w ++ [c])%list).

Definition get_session {Session} : M Session Session :=
  fun w => Some (Ok (session w), w).

(** ** LolalyticsParser.parse_common_section (lolalytics_parser.py, lines 117-151) *)

(** What one lane's loop carries: the local [seen_champions] and
    [counters], and the [counter_fields] dict, which the loop mutates. *)
Record LaneState (Rec : Type) : Type := mkLane {
  seen_champions : gset (option string);
  counters : list (option Rec);
  counter_fields : dict FieldSpec
}.
Arguments mkLane {Rec} _ _ _.
Arguments seen_champions {Rec} _.
Arguments counters {Rec} _.
Arguments counter_fields {Rec} _.

(** Lines 135-138: the champion a card links to. *)
Definition card_champ (flag : string) (card : ElementHandle) : result (option string) :=
  (anchor <-r query_selector card "a" ;;
   match anchor with
   | None => Raise AttributeError
   | Some a =>
       let link := get_attribute a "href" in
       if String.eqb flag "teammates" then
         match link with
         | None => Raise AttributeError
         | Some l =>
             part <-r py_index (py_split "/" l) 2 ;; Ok (Some (py_capitalize part))
         end
       else if String.eqb flag "matchup" then
         match link with
         | None => Raise AttributeError
         | Some l =>
             part <-r py_index (py_split "/" l) 4 ;; Ok (Some (py_capitalize part))
         end
       else Ok None
   end)%result.

(** [lambda _: champ] *)
Definition const_champ (champ : option string) : Transform :=
  fun _ => Ok (value_of_text champ).

Definition cards_selector (i : nat) : string :=
  "div.m-auto.w-\[98\%\] > div.w-\[100\%\] > div:nth-child("
  +:+ pretty (2 + i)%nat +:+ ") > div.cursor-grab > div > div".

Definition positions_selector : string :=
  "body > main > div.m-auto > div > div > div > img".

Section Lolalytics.
Context {Session Rec : Type}.
Variable ops : PageOps Session.
Variable CounterCardV2 : Schema Rec.

(** The type of the [parse_element_func] argument. *)
Definition ParseElementFunc : Type :=
  ElementHandle -> Schema Rec -> dict FieldSpec -> Session ->
  result (option Rec) * list LogRecord.

(** [self.parse_element], the function parse_champion_build passes. *)
Definition self_parse_element : ParseElementFunc :=
  fun element schema_cls fields s =>
    let '(r, logs) :=
      parse_element (fun sel => Ok (op_query_selector ops sel s))
                    element schema_cls fields in
    (Ok r, logs).

Variable flag : string.
Variable parse_element_func : ParseElementFunc.

(** Lines 135-145: the body of [for card in cards]. *)
Definition process_card (card : ElementHandle) (st : LaneState Rec)
    : M Session (LaneState Rec) :=
  (champ <-w of_result (card_champ flag card) ;;
   if decide (champ ∈ seen_champions st) then mret st
   else
     let fields :=
       dict_set (counter_fields st) "champion" (None, None, Some (const_champ champ)) in
     s <-w get_session ;;
     let '(r, logs) := parse_element_func card CounterCardV2 fields s in
     emit_logs logs ;;w
     parsed <-w of_result r ;;
     mret (mkLane ({[champ]} ∪ seen_champions st)
                  (counters st ++ [parsed])%list
                  fields))%world.

Fixpoint process_cards (cards : list ElementHandle) (st : LaneState Rec)
    : M Session (LaneState Rec) :=
  match cards with
  | [] => mret st
  | card :: rest =>
      (st' <-w process_card card st ;; process_cards rest st')%world
  end.

(** Line 131: [el.scrollLeft += (el.clientWidth - 100)] *)
Definition scroll_step (node : nat) (s : Session) : Session :=
  op_set_scrollLeft ops node
    (op_scrollLeft ops node s + (op_clientWidth ops node s - 100)) s.

(** Line 147: [el.scrollLeft + el.clientWidth >= el.scrollWidth - 5] *)
Definition scroll_exhausted (node : nat) (s : Session) : bool :=
  Z.geb (op_scrollLeft ops node s + op_clientWidth ops node s)
        (op_scrollWidth ops node s - 5).

(** Lines 131-147: one pass of the [while True] body; the boolean says
    whether the loop breaks. *)
Definition lane_iteration (scroll_containers : list ElementHandle) (i : nat)
    (st : LaneState Rec) : M Session (LaneState Rec * bool) :=
  (container <-w of_result (py_index scroll_containers i) ;;
   page_do (CallEvaluateScroll (node_id container))
           (fun s => (Ok tt, scroll_step (node_id container) s)) ;;w
   cards <-w page_read (CallQuerySelectorAll (cards_selector i))
                       (op_query_selector_all ops (cards_selector i)) ;;
   st' <-w process_cards cards st ;;
   stop <-w page_read (CallEvaluateExhausted (node_id container))
                      (scroll_exhausted (node_id container)) ;;
   mret (st', stop))%world.

(** Lines 130-147: [while True], with a budget of iterations. *)
Fixpoint lane_loop (fuel : nat) (scroll_containers : list ElementHandle)
    (i : nat) (st : LaneState Rec) : M Session (LaneState Rec) :=
  match fuel with
  | O => fun _ => None
  | S fuel' =>
      (r <-w lane_iteration scroll_containers i st ;;
       if snd r then mret (fst r)
       else lane_loop fuel' scroll_containers i (fst r))%world
  end.

(** [{curr_lane: counters}] *)
Definition LaneData : Type := option string * list (option Rec).

(** Lines 125-149: [for i in range(len(positions))], from index [i] on.
    Each lane's loop has the whole budget. *)
Fixpoint lanes (fuel : nat) (scroll_containers positions : list ElementHandle)
    (i : nat) (fields : dict FieldSpec) (common_data : list LaneData)
    : M Session (list LaneData * dict FieldSpec) :=
  match positions with
  | [] => mret (common_data, fields)
  | position :: rest =>
      let curr_lane := get_attribute position "alt" in
      (st <-w lane_loop fuel scroll_containers i (mkLane ∅ [] fields) ;;
       lanes fuel scroll_containers rest (S i) (counter_fields st)
             (common_data ++ [(curr_lane, counters st)])%list)%world
  end.

(** The whole function.  Besides [common_data] it gives back the
    [counter_fields] dict as the calls left it: the caller passes the
    same dict again. *)
Definition parse_common_section (fuel : nat) (fields : dict FieldSpec)
    : M Session (list LaneData * dict FieldSpec) :=
  (page_do (CallWaitForSelector "div.cursor-grab" 10000)
           (op_wait_for_selector ops "div.cursor-grab" 10000) ;;w
   scroll_containers <-w page_read (CallQuerySelectorAll "div.cursor-grab")
                           (op_query_selector_all ops "div.cursor-grab") ;;
   positions <-w page_read (CallQuerySelectorAll positions_selector)
                   (op_query_selector_all ops positions_selector) ;;
   lanes fuel scroll_containers positions 0 fields [])%world.

(** The first [k] passes of the loop body, run without looking at the
    end-of-scroll test: the state and the page the loop would be in after
    [k] passes. *)
Fixpoint iterations (k : nat) (scroll_containers : list ElementHandle)
    (i : nat) (st : LaneState Rec) : M Session (LaneState Rec) :=
  match k with
  | O => mret st
  | S k' =>
      (r <-w lane_iteration scroll_containers i st ;;
       iterations k' scroll_containers i (fst r))%world
  end.

(** Lines 104-106 of parse_counters_stats (and 68-70 of parse_meta_stats):
    the sibling loop, which keeps a parsed record only [if stat]. *)
Fixpoint collect_parsed (schema_cls : Schema Rec) (fields : dict FieldSpec)
    (cards : list ElementHandle) (out : list Rec) : M Session (list Rec) :=
  match cards with
  | [] => mret out
  | card :: rest =>
      (s <-w get_session ;;
       let '(stat, logs) :=
         parse_element (fun sel => Ok (op_query_selector ops sel s))
                       card schema_cls fields in
       emit_logs logs ;;w
       collect_parsed schema_cls fields rest
         (match stat with Some r => (out ++ [r])%list | None => out end))%world
  end.
End Lolalytics.

(** ** LolalyticsParser.parse_champion_build (lolalytics_parser.py, lines 153-213) *)

Definition anchor_selector : string :=
  "body > main > div.m-auto > div > div:nth-child(2) > div.cursor-grab.overflow-y-hidden.overflow-x-scroll > div > div:nth-child(1) > a".

Definition tab_selector : string :=
  "body > main > div > div > div:nth-child(1) > div:nth-child(2) > div.flex.flex-auto.justify-items-stretch > div:nth-child(1)".

Definition objectives_selector : string :=
  "div.mb-2.break-inside-avoid > table > tbody > tr".

(** Lines 157-163. *)
Definition build_counter_fields : dict FieldSpec :=
  [ ("wr", (Some "div.my-1:nth-child(2)", Some "text", None));
    ("delta_1", (Some "div.my-1:nth-child(3)", Some "text", None));
    ("delta_2", (Some "div.my-1:nth-child(4)", Some "text", None));
    ("pr", (Some "div.my-1:nth-child(5)", Some "text", None));
    ("games", (Some "div.text-\[9px\].text-\[\#bbb\]", Some "text", None)) ].

Definition py_lower (s : string) : string := str_map ascii_lower s.

Section Build.
Context {Session Rec Obj Stats : Type}.
Variable ops : PageOps Session.
Variable CounterCardV2 : Schema Rec.
(** The constructors of the pydantic classes, which validate. *)
Variable ObjectiveInfo :
  option string -> option string -> option string -> option string -> result Obj.
Variable ChampionStats :
  string -> dict Obj -> list (@LaneData Rec) -> list (@LaneData Rec) -> result Stats.

(** PlaywrightBrowser.new_page, and the assignment to [self.page]. *)
Definition new_page : M Session unit :=
  fun w =>
    let '(r, s) := op_new_page ops (session w) in
    Some (r, mkWorld s (match r with Ok _ => true | Raise _ => self_page w end)
                     (log w) (calls w ++ [CallNewPage])%list).

(** PlaywrightBrowser.auto_scroll (playwright_browser.py, lines 70-74). *)
Fixpoint auto_scroll (delay_ms step : Z) (max_scrolls : nat) : M Session unit :=
  match max_scrolls with
  | O => mret tt
  | S n =>
      (page_do (CallMouseWheel 0 step)
               (fun s => (Ok tt, op_mouse_wheel ops 0 step s)) ;;w
       page_do (CallWaitForTimeout delay_ms)
               (fun s => (Ok tt, op_wait_for_timeout ops delay_ms s)) ;;w
       auto_scroll delay_ms step n)%world
  end.

(** The predicate of lines 177-180:
    [el && el.textContent.trim() !== args.oldCheck]. *)
Definition text_changed (selector old_check : string) (s : Session) : result bool :=
  match op_query_selector ops selector s with
  | None => Ok false
  | Some el =>
      match text_content el with
      | Some t => Ok (negb (String.eqb (js_trim t) old_check))
      | None => Raise (PageError "TypeError: Cannot read properties of null")
      end
  end.

(** [page.wait_for_function]: the predicate is evaluated now and then
    once per tick, [polls] more times; if it never holds the call raises
    [TimeoutError]. *)
Fixpoint poll_changed (polls : nat) (selector old_check : string) (s : Session)
    : result unit * Session :=
  match text_changed selector old_check s with
  | Raise e => (Raise e, s)
  | Ok true => (Ok tt, s)
  | Ok false =>
      match polls with
      | O => (Raise TimeoutError, s)
      | S n => poll_changed n selector old_check (op_tick ops s)
      end
  end.

(** Lines 176-186: the change barrier. *)
Definition wait_for_change (selector old_check : string) (timeout : Z)
    : M Session unit :=
  page_do (CallWaitForFunction selector old_check timeout)
          (poll_changed (op_polls ops timeout) selector old_check).

(** Lines 166-174: up to the click on the tab.  Gives the matchup
    section, the field table as that call left it, and [old_check]. *)
Definition build_until_click (fuel : nat) (url : string)
    : M Session (list (@LaneData Rec) * dict FieldSpec * option string) :=
  (new_page ;;w
   page_do (CallGoto url) (op_goto ops url) ;;w
   auto_scroll 10 300 5 ;;w
   matchup <-w parse_common_section ops CounterCardV2 "matchup"
                 (self_parse_element ops) fuel build_counter_fields ;;
   page_do (CallWaitForSelector anchor_selector 10000)
           (op_wait_for_selector ops anchor_selector 10000) ;;w
   anchor <-w page_read (CallQuerySelector anchor_selector)
                (op_query_selector ops anchor_selector) ;;
   old_check <-w of_result (match anchor with
                            | Some a => Ok (text_content a)
                            | None => Raise AttributeError
                            end) ;;
   page_do (CallClick tab_selector) (op_click ops tab_selector) ;;w
   mret (fst matchup, snd matchup, old_check))%world.

(** [old_check.strip() if old_check else ""] *)
Definition old_check_arg (old_check : option string) : string :=
  match old_check with
  | Some t => if str_truthy t then py_strip t else ""
  | None => ""
  end.

(** Lines 195-204: one row of the objectives table. *)
Definition objective_row (row : ElementHandle) (objectives : dict Obj)
    : result (dict Obj) :=
  let tds := query_selector_all row "td" in
  (td0 <-r py_index tds 0 ;;
   name <-r match text_content td0 with
            | Some t => Ok (py_lower t)
            | None => Raise AttributeError
            end ;;
   td1 <-r py_index tds 1 ;;
   td2 <-r py_index tds 2 ;;
   yield_percent <-r (if Nat.ltb 3 (length tds)
                      then td <-r py_index tds 3 ;; Ok (text_content td)
                      else Ok None) ;;
   yield_win_percent <-r (if Nat.ltb 4 (length tds)
                          then td <-r py_index tds 4 ;; Ok (text_content td)
                          else Ok None) ;;
   info <-r ObjectiveInfo (text_content td1) (text_content td2)
                          yield_percent yield_win_percent ;;
   Ok (dict_set objectives name info))%result.

Fixpoint objective_rows (rows : list ElementHandle) (objectives : dict Obj)
    : result (dict Obj) :=
  match rows with
  | [] => Ok objectives
  | row :: rest =>
      (objectives' <-r objective_row row objectives ;;
       objective_rows rest objectives')%result
  end.

(** Lines 188-206: the teammates section and what follows it. *)
Definition build_after_change (fuel : nat) (champion : string)
    (common_matchup : list (@LaneData Rec)) (fields : dict FieldSpec)
    : M Session Stats :=
  (teammates <-w parse_common_section ops CounterCardV2 "teammates"
                   (self_parse_element ops) fuel fields ;;
   rows <-w page_read (CallQuerySelectorAll objectives_selector)
              (op_query_selector_all ops objectives_selector) ;;
   (match rows with
    | [] => logging ERROR "Objective selector not found"
    | _ => mret tt
    end) ;;w
   objectives <-w of_result (objective_rows rows []) ;;
   of_result (ChampionStats champion objectives common_matchup (fst teammates)))%world.

(** Lines 166-206: the body of the [try]. *)
Definition build_body (fuel : nat) (champion tier : string) : M Session Stats :=
  let url := "https://lolalytics.com/lol/" +:+ py_lower champion
             +:+ "/build/?tier=" +:+ py_lower tier in
  (before <-w build_until_click fuel url ;;
   let '(common_matchup, fields, old_check) := before in
   wait_for_change anchor_selector (old_check_arg old_check) 10000 ;;w
   build_after_change fuel champion common_matchup fields)%world.

(** Lines 211-213: [finally: if self.page: await self.page.close()] *)
Definition close_page (w : World Session) : World Session :=
  if self_page w
  then mkWorld (op_close ops (session w)) (self_page w) (log w)
               (calls w ++ [CallClose])%list
  else w.

(** The whole function: [try ... except Exception ... finally]. *)
Definition parse_champion_build (fuel : nat) (champion tier : string)
    (w : World Session) : option (option Stats * World Session) :=
  match build_body fuel champion tier w with
  | None => None
  | Some (Ok stats, w') => Some (Some stats, close_page w')
  | Some (Raise e, w') =>
      Some (None,
            close_page
              (mkWorld (session w') (self_page w')
                 (log w' ++ [(ERROR, "Error parsing build stats: " +:+ exn_str e)])%list
                 (calls w')))
  end.
End Build.

(** ** A small page to run the definitions on

    A virtualised panel: each lane is a strip of cards placed at fixed
    offsets, of which the DOM holds those inside the viewport.  Writing
    [scrollLeft] clamps the value to the scrollable range, as browsers do.
    The text of the anchor the change barrier watches follows a script,
    one entry per tick. *)
Module TestPage.

Record Lane : Type := mkTestLane {
  alt : option string;
  left : Z;
  client : Z;
  width : Z;
  strip : list (Z * ElementHandle)
}.

Record Session : Type := mkSession {
  strips : list Lane;
  anchor_text : option string;
  script : list string
}.

Definition leaf (text : string) : ElementHandle :=
  Element 0 (Some text) (fun _ => None) (fun _ => Ok None) (fun _ => []).

Definition anchor (href : option string) : ElementHandle :=
  Element 0 (Some "") (fun a => if String.eqb a "href" then href else None)
          (fun _ => Ok None) (fun _ => []).

(** A card: its link and the texts its selectors find. *)
Definition card (link : option (option string)) (texts : dict string) : ElementHandle :=
  Element 0 (Some "") (fun _ => None)
          (fun sel =>
             if String.eqb sel "a" then Ok (anchor <$> link)
             else Ok (leaf <$> dict_get texts sel))
          (fun _ => []).

Definition container (i : nat) : ElementHandle :=
  Element i (Some "") (fun _ => None) (fun _ => Ok None) (fun _ => []).

Definition image (l : Lane) : ElementHandle :=
  Element 0 (Some "") (fun a => if String.eqb a "alt" then alt l else None)
          (fun _ => Ok None) (fun _ => []).

Definition visible (l : Lane) : list ElementHandle :=
  map snd (filter (fun p => left l <= fst p < left l + client l) (strip l)).

Definition clamp (l : Lane) (v : Z) : Z :=
  Z.max 0 (Z.min v (width l - client l)).

Definition set_left (i : nat) (v : Z) (s : Session) : Session :=
  mkSession
    (alter (fun l => mkTestLane (alt l) (clamp l v) (client l) (width l) (strip l))
           i (strips s))
    (anchor_text s) (script s).

Definition lane_metric (f : Lane -> Z) (i : nat) (s : Session) : Z :=
  match strips s !! i with
  | Some l => f l
  | None => 0
  end.

Definition query_all (sel : string) (s : Session) : list ElementHandle :=
  if String.eqb sel "div.cursor-grab" then imap (fun i _ => container i) (strips s)
  else if String.eqb sel positions_selector then map image (strips s)
  else
    match List.find (fun i => String.eqb sel (cards_selector i))
                    (seq 0 (length (strips s))) with
    | Some i => match strips s !! i with Some l => visible l | None => [] end
    | None => []
    end.

Definition query (sel : string) (s : Session) : option ElementHandle :=
  if String.eqb sel anchor_selector then leaf <$> anchor_text s
  else head (query_all sel s).

Definition wait_for (sel : string) (timeout : Z) (s : Session) : result unit * Session :=
  match query sel s with
  | Some _ => (Ok tt, s)
  | None => (Raise TimeoutError, s)
  end.

Definition tick (s : Session) : Session :=
  match script s with
  | [] => s
  | t :: rest => mkSession (strips s) (Some t) rest
  end.

Definition ops : PageOps Session := {|
  op_new_page := fun s => (Ok tt, s);
  op_goto := fun _ s => (Ok tt, s);
  op_mouse_wheel := fun _ _ s => s;
  op_wait_for_timeout := fun _ s => s;
  op_wait_for_selector := wait_for;
  op_query_selector := query;
  op_query_selector_all := query_all;
  op_scrollLeft := lane_metric left;
  op_clientWidth := lane_metric client;
  op_scrollWidth := lane_metric width;
  op_set_scrollLeft := set_left;
  op_click := fun _ s => (Ok tt, s);
  op_tick := tick;
  op_polls := fun timeout => Z.to_nat (timeout / 100);
  op_close := fun s => s
|}.

(** A record class that keeps the keyword arguments and validates [wr] as
    a number when it is a text. *)
Definition card_schema : Schema (dict value) := {|
  schema_name := "CounterCardV2";
  construct := fun values =>
    match dict_get values "wr" with
    | Some (VStr t) => (_ <-r py_float t ;; Ok values)%result
    | _ => Ok values
    end
|}.

(** A record class that accepts any keyword arguments. *)
Definition plain_schema : Schema (dict value) := {|
  schema_name := "Plain";
  construct := fun values => Ok values
|}.

(** A transform that tells [None] from its own result:
    [lambda v: "x" if v is None else v + "!"] *)
Definition exclaim : Transform :=
  fun v =>
    match v with
    | VNone => Ok (VStr "x")
    | VStr t => Ok (VStr (t +:+ "!"))
    | VNum _ => Raise TypeError
    end.

(** Record classes for the objectives and for the whole build, which keep
    their arguments. *)
Definition objective_info (a b c d : option string)
    : result (option string * option string * option string * option string) :=
  Ok (a, b, c, d).


Definition start (s : Session) : World Session := mkWorld s false [] [].

Definition wr_selector : string := "div.my-1:nth-child(2)".

Definition card_A : ElementHandle :=
  card (Some (Some "/lol/x/vs/aatrox/build/")) [(wr_selector, "51.2")].
Definition card_B : ElementHandle :=
  card (Some (Some "/lol/x/vs/brand/build/")) [(wr_selector, "49.0")].
Definition card_C : ElementHandle :=
  card (Some (Some "/lol/x/vs/camille/build/")) [(wr_selector, "50.5")].
(** a card whose win rate does not validate *)
Definition card_bad_wr : ElementHandle :=
  card (Some (Some "/lol/x/vs/diana/build/")) [(wr_selector, "n/a")].
(** a card without an anchor *)
Definition card_no_anchor : ElementHandle :=
  card None [(wr_selector, "50.0")].
(** a card whose link has too few segments *)
Definition card_short_link : ElementHandle :=
  card (Some (Some "/lol/x")) [(wr_selector, "50.0")].

(** One lane that shows [A, B] after the first scroll step and [B, C]
    after the second, where it is exhausted. *)
Definition overlap_page : Session :=
  mkSession [mkTestLane (Some "top") 0 200 400
                        [(150, card_A); (250, card_B); (350, card_C)]]
            (Some "10W 5L") [].

(** One lane whose viewport is 100 wide: the scroll step is 0 and the end
    is never reached. *)
Definition stuck_page : Session :=
  mkSession [mkTestLane (Some "top") 0 100 1000 [(50, card_A)]]
            (Some "10W 5L") [].

Definition bad_wr_page : Session :=
  mkSession [mkTestLane (Some "top") 0 200 250 [(100, card_bad_wr); (150, card_B)]]
            (Some "10W 5L") [].

Definition no_anchor_page : Session :=
  mkSession [mkTestLane (Some "top") 0 200 250 [(100, card_no_anchor); (150, card_B)]]
            (Some "10W 5L") [].

Definition short_link_page : Session :=
  mkSession [mkTestLane (Some "top") 0 200 250 [(100, card_short_link); (150, card_B)]]
            (Some "10W 5L") [].



End TestPage.

(** ** Specification vocabulary *)

Fixpoint str_forallb (p : ascii -> bool) (s : string) : bool :=
  match s with
  | EmptyString => true
  | String c r => (p c && str_forallb p r)%bool
  end.

(** A world that differs from [w] in its log only. *)
Definition with_logs {Session} (w : World Session) (logs : list LogRecord)
    : World Session :=
  mkWorld (session w) (self_page w) (log w ++ logs)%list (calls w).

(** A world that differs from [w] by one more call and a new session. *)
Definition after_call {Session} (w : World Session) (c : PageCall) (s : Session)
    : World Session :=
  mkWorld s (self_page w) (log w) (calls w ++ [c])%list.

(** The world in which the cards of a pass of lane [i] are processed:
    the container is scrolled and the cards are queried. *)
Definition after_scroll {Session} (ops : PageOps Session) (i node : nat)
    (w : World Session) : World Session :=
  after_call
    (after_call w (CallEvaluateScroll node) (scroll_step ops node (session w)))
    (CallQuerySelectorAll (cards_selector i))
    (scroll_step ops node (session w)).

(** The record in [counters] that stands for the card [ck.1] of key
    [ck.2]: what [parse_element_func] returned for it, on the field table
    with that key injected. *)
Definition mapped_by {Session Rec} (CounterCardV2 : Schema Rec)
    (parse_element_func : @ParseElementFunc Session Rec)
    (fields : dict FieldSpec)
    (ck : ElementHandle * option string) (r : option Rec) : Prop :=
  exists s logs,
    parse_element_func ck.1 CounterCardV2
      (dict_set fields "champion" (None, None, Some (const_champ ck.2))) s
    = (Ok r, logs).

(** What holds of a lane's state all along its loop: [picked] lists, in
    order, the cards that were mapped, each with its key. *)
Definition lane_inv {Session Rec} (CounterCardV2 : Schema Rec) (flag : string)
    (parse_element_func : @ParseElementFunc Session Rec)
    (fields : dict FieldSpec)
    (picked : list (ElementHandle * option string)) (st : LaneState Rec) : Prop :=
  NoDup picked.*2
  /\ Forall (fun ck => card_champ flag ck.1 = Ok ck.2) picked
  /\ seen_champions st = list_to_set picked.*2
  /\ Forall2 (mapped_by CounterCardV2 parse_element_func fields) picked (counters st)
  /\ (forall spec, dict_set (counter_fields st) "champion" spec
                   = dict_set fields "champion" spec).

(** ** More of Python's [str] *)

Definition is_slash (c : ascii) : bool := Ascii.eqb c "/".

(** [s.startswith(p)] *)
Fixpoint py_startswith (s p : string) {struct p} : bool :=
  match p with
  | EmptyString => true
  | String c p' =>
      match s with
      | EmptyString => false
      | String d s' => (Ascii.eqb d c && py_startswith s' p')%bool
      end
  end.

(** [s.endswith(p)]: some tail of [s] is [p]. *)
Fixpoint py_endswith (s p : string) : bool :=
  (String.eqb s p
   || match s with
      | EmptyString => false
      | String _ r => py_endswith r p
      end)%bool.

(** [sub in s] *)
Fixpoint py_contains (sub s : string) : bool :=
  (py_startswith s sub
   || match s with
      | EmptyString => false
      | String _ r => py_contains sub r
      end)%bool.

(** [s[:-1]] *)
Fixpoint py_drop_last (s : string) : string :=
  match s with
  | EmptyString => EmptyString
  | String c EmptyString => EmptyString
  | String c r => String c (py_drop_last r)
  end.

(** [s.split()]: the runs of characters between white space. *)
Fixpoint py_split_ws (s : string) : list string :=
  match s with
  | EmptyString => []
  | String c r =>
      if py_isspace c then py_split_ws r
      else
        match r with
        | EmptyString => [String c EmptyString]
        | String d _ =>
            if py_isspace d then String c EmptyString :: py_split_ws r
            else match py_split_ws r with
                 | t :: ts => String c t :: ts
                 | [] => [String c EmptyString]
                 end
        end
  end.

(** [l[-3:]] *)
Definition py_last3 {A} (l : list A) : list A := drop (length l - 3) l.

(** ** OP.GG: the URL functions and _parse_previous_seasons
    (opgg_parser.py, lines 10-45 and 67-74) *)
Module OPGG.

(** Lines 10-12. *)
Definition is_valid_url (url : string) : bool :=
  py_contains "op.gg" (py_lower url).

(** Lines 15-23. *)
Definition normalize_url (url : string) : result string :=
  let parts := py_split "/" (rstrip is_slash url) in
  let last3 := py_last3 parts in
  (p0 <-r py_index last3 0 ;;
   p1 <-r py_index last3 1 ;;
   p2 <-r py_index last3 2 ;;
   Ok ("https://op.gg/en/lol/" +:+ p0 +:+ "/" +:+ p1 +:+ "/" +:+ p2))%result.

Definition solo_suffix : string := "/champions?queue_type=SOLORANKED".
Definition flex_suffix : string := "/champions?queue_type=FLEXRANKED".

(** Lines 26-34. *)
Definition normalize_url_champions_solo (url : string) : result string :=
  (base_url <-r normalize_url url ;;
   if negb (py_endswith base_url solo_suffix)
   then Ok (base_url +:+ solo_suffix)
   else Ok base_url)%result.

(** Lines 37-45. *)
Definition normalize_url_champions_flex (url : string) : result string :=
  (base_url <-r normalize_url url ;;
   if negb (py_endswith base_url flex_suffix)
   then Ok (base_url +:+ flex_suffix)
   else Ok base_url)%result.

(** Lines 67-74.  [SeasonStats] is the constructor of the pydantic class,
    which validates; the loop runs from index [i] with the list built so
    far. *)
Fixpoint previous_seasons_from {Season : Type}
    (SeasonStats : option string -> option string -> option string -> result Season)
    (ranks lps : list (option string))
    (i : nat) (seasons : list (option string)) (previous_seasons : list Season)
    : result (list Season) :=
  match seasons with
  | [] => Ok previous_seasons
  | season :: rest =>
      let rank := if Nat.ltb i (length ranks)
                  then default None (ranks !! i) else Some "" in
      let lp := if Nat.ltb i (length lps)
                then default None (lps !! i) else None in
      (s <-r SeasonStats season rank lp ;;
       previous_seasons_from SeasonStats ranks lps (S i) rest
                             (previous_seasons ++ [s])%list)%result
  end.

Definition _parse_previous_seasons {Season : Type}
    (SeasonStats : option string -> option string -> option string -> result Season)
    (seasons ranks lps : list (option string)) : result (list Season) :=
  previous_seasons_from SeasonStats ranks lps 0 seasons [].

(** A record class to run the function on: it keeps its arguments, and
    takes [lp] only when [int] reads it. *)
Definition season_with_int_lp (season rank lp : option string)
    : result (option string * option string * option Z) :=
  match lp with
  | Some t => (n <-r py_int t ;; Ok (season, rank, Some n))%result
  | None => Ok (season, rank, None)
  end.

End OPGG.

(** ** DeepLOL: normalize_url and parse_wins_losses
    (deeplol_parser.py, lines 23-45) *)
Module DeepLOL.

(** Lines 23-30. *)
Definition normalize_url (url : string) : string * string :=
  let url := rstrip is_slash url in
  let url := if negb (py_startswith url "https://") then "https://" +:+ url else url in
  (url, url +:+ "/champions").

Definition caught_Value_Attribute_Index (e : exn) : bool :=
  match e with
  | ValueError | AttributeError | IndexError => true
  | _ => false
  end.

(** [int(s[:-1])] *)
Definition int_without_last (s : string) : result Z := py_int (py_drop_last s).

(** [wins, losses = map(lambda s: int(s[:-1]), text.split())]: the map is
    lazy, so a token is converted when the unpacking asks for it; the
    unpacking asks for a third item to see that there is none. *)
Definition unpack_wins_losses (tokens : list string) : result (Z * Z) :=
  match tokens with
  | [] => Raise ValueError
  | [t1] => (_ <-r int_without_last t1 ;; Raise ValueError)%result
  | [t1; t2] =>
      (wins <-r int_without_last t1 ;;
       losses <-r int_without_last t2 ;;
       Ok (wins, losses))%result
  | t1 :: t2 :: t3 :: _ =>
      (_ <-r int_without_last t1 ;;
       _ <-r int_without_last t2 ;;
       _ <-r int_without_last t3 ;;
       Raise ValueError)%result
  end.

(** Lines 32-45.  The message of line 44 is a debug message, which the
    logging configuration of the module (level INFO) drops. *)
Definition parse_wins_losses
    (page_query : string -> result (option ElementHandle)) (selector : string)
    : result (option Z * option Z) * list LogRecord :=
  let '(extracted, logs) := extract_text page_query selector None in
  let text := py_strip (match extracted with
                        | Some t => if str_truthy t then t else ""
                        | None => ""
                        end) in
  (try_except
     (if negb (str_truthy text) then Ok (None, None)
      else (wl <-r unpack_wins_losses (py_split_ws text) ;;
            Ok (Some (fst wl), Some (snd wl))))%result
     caught_Value_Attribute_Index
     (fun _ => Ok (None, None)),
   logs).

End DeepLOL.

(** ** Vocabulary for the URL functions *)

Fixpoint str_count (p : ascii -> bool) (s : string) : nat :=
  match s with
  | EmptyString => 0%nat
  | String c r => ((if p c then 1 else 0) + str_count p r)%nat
  end.

(** A path segment: a string without '/'. *)
Definition slash_free (s : string) : Prop :=
  str_forallb (fun c => negb (is_slash c)) s = true.

(** [int(s) if s else None], as _parse_win_loss reads one of its strings. *)
Definition int_or_none (s : string) : result (option Z) :=
  if str_truthy s then (n <-r py_int s ;; Ok (Some n))%result else Ok None.

(** What normalize_url_champions_solo and normalize_url_champions_flex both
    do, for the query of either. *)
Definition champions_url (q : string) (url : string) : result string :=
  (base_url <-r OPGG.normalize_url url ;;
   if negb (py_endswith base_url (String "/" q))
   then Ok (base_url +:+ String "/" q)
   else Ok base_url)%result.

(** [l[i] if i < len(l) else d] *)
Definition index_or {A} (d : A) (l : list A) (i : nat) : A :=
  match l !! i with
  | Some x => x
  | None => d
  end.

(** The text parse_wins_losses works on: what extract_text found, or "". *)
Definition wl_text (page_query : string -> result (option ElementHandle))
    (selector : string) : string :=
  py_strip (default "" (fst (extract_text page_query selector None))).

(** ** LolalyticsParser.parse_meta_stats and parse_counters_stats
    (lolalytics_parser.py, lines 44-115) *)

(** [s[n:]] *)
Fixpoint py_drop (n : nat) (s : string) : string :=
  match n, s with
  | O, _ => s
  | S n', String _ r => py_drop n' r
  | S _, EmptyString => EmptyString
  end.

(** Lines 48-56. *)
Definition meta_fields : dict FieldSpec :=
  [ ("name", (Some "div:nth-of-type(3)", Some "text", None));
    ("tier", (Some "div:nth-of-type(4)", Some "text", None));
    ("lane", (Some "div:nth-of-type(5)", Some "text", None));
    ("win", (Some "div:nth-child(6) > div > span:nth-child(1)", Some "number", None));
    ("pick", (Some "div:nth-of-type(7)", Some "number", None));
    ("ban", (Some "div:nth-of-type(8)", Some "number", None));
    ("games", (Some "div:nth-of-type(10)", Some "number", None)) ].

Definition meta_rows_selector : string := "body > main > div:nth-of-type(6) > div".

Definition counter_cards_selector : string :=
  "div.flex.flex-wrap.justify-between > span".

Definition delta_1_selector : string :=
  "div > a > div > div:nth-of-type(3) > span:nth-of-type(1)".

Definition delta_2_selector : string :=
  "div > a > div > div:nth-of-type(3) > span:nth-of-type(2)".

Section MetaAndCounters.
Context {Session Rec Stats : Type}.
Variable ops : PageOps Session.
(** [float] on a [str]: Python's own, of which the parsers use only that it
    returns a number or raises. *)
Variable float_of_str : string -> result decimal.

(** [lambda s: float(s[2:])] *)
Definition delta_transform : Transform :=
  fun v =>
    match v with
    | VStr s => (d <-r float_of_str (py_drop 2 s) ;; Ok (VNum d))%result
    | VNone => Raise TypeError
    | VNum _ => Raise TypeError
    end.

(** Lines 85-92. *)
Definition counters_fields : dict FieldSpec :=
  [ ("champion", (Some "div > a > div > div:nth-of-type(1)", Some "text", None));
    ("wr_against", (Some "div > a > div > div:nth-of-type(2)", Some "number", None));
    ("delta_1", (Some delta_1_selector, Some "text", Some delta_transform));
    ("delta_2", (Some delta_2_selector, Some "text", Some delta_transform));
    ("avg_wr_against", (Some "div > a > div > div:nth-of-type(4)", Some "number", None));
    ("games", (Some "div > a > div > div:nth-of-type(5)", Some "number", None)) ].

(** [try: body  except Exception as e: logging.error(f"{message}: {e}");
    return None  finally: if self.page: await self.page.close()] *)
Definition with_page {A} (message : string) (body : M Session A)
    (w : World Session) : option (option A * World Session) :=
  match body w with
  | None => None
  | Some (Ok a, w') => Some (Some a, close_page ops w')
  | Some (Raise e, w') =>
      Some (None,
            close_page ops
              (mkWorld (session w') (self_page w')
                 (log w' ++ [(ERROR, message +:+ ": " +:+ exn_str e)])%list
                 (calls w')))
  end.

(** Lines 59-72. *)
Definition parse_meta_stats_body (MetaChampion : Schema Rec)
    (MetaStats : list Rec -> result Stats) (tier : string) : M Session Stats :=
  let url := "https://lolalytics.com/lol/tierlist/?tier=" +:+ py_lower tier in
  (new_page ops ;;w
   page_do (CallGoto url) (op_goto ops url) ;;w
   auto_scroll ops 10 300 50 ;;w
   rows <-w page_read (CallQuerySelectorAll meta_rows_selector)
              (op_query_selector_all ops meta_rows_selector) ;;
   (match rows with
    | [] => logging ERROR "Row selector not found"
    | _ => mret tt
    end) ;;w
   champions <-w collect_parsed ops MetaChampion meta_fields (drop 2 rows) [] ;;
   of_result (MetaStats champions))%world.

(** Lines 44-79. *)
Definition parse_meta_stats (MetaChampion : Schema Rec)
    (MetaStats : list Rec -> result Stats) (tier : string)
    : World Session -> option (option Stats * World Session) :=
  with_page "Error parsing meta stats"
            (parse_meta_stats_body MetaChampion MetaStats tier).

(** Lines 95-108. *)
Definition parse_counters_stats_body (CounterCard : Schema Rec)
    (ChampionCounters : string -> list Rec -> result Stats)
    (champion tier : string) : M Session Stats :=
  let url := "https://lolalytics.com/lol/" +:+ py_lower champion
             +:+ "/counters/?tier=" +:+ py_lower tier in
  (new_page ops ;;w
   page_do (CallGoto url) (op_goto ops url) ;;w
   cards <-w page_read (CallQuerySelectorAll counter_cards_selector)
               (op_query_selector_all ops counter_cards_selector) ;;
   (match cards with
    | [] => logging ERROR "Card selector not found"
    | _ => mret tt
    end) ;;w
   counters <-w collect_parsed ops CounterCard counters_fields cards [] ;;
   of_result (ChampionCounters champion counters))%world.

(** Lines 81-115. *)
Definition parse_counters_stats (CounterCard : Schema Rec)
    (ChampionCounters : string -> list Rec -> result Stats)
    (champion tier : string)
    : World Session -> option (option Stats * World Session) :=
  with_page "Error parsing counter stats"
            (parse_counters_stats_body CounterCard ChampionCounters champion tier).

End MetaAndCounters.

(** ** Vocabulary for the lane loop *)

(** The cards of one query that are new to a lane, each with its key, in
    the order of the query: a card counts if its key is neither seen before
    the query nor carried by a card before it. *)
Fixpoint fresh_cards (flag : string) (seen : gset (option string))
    (cards : list ElementHandle) : list (ElementHandle * option string) :=
  match cards with
  | [] => []
  | card :: rest =>
      match card_champ flag card with
      | Ok champ =>
          if decide (champ ∈ seen) then fresh_cards flag seen rest
          else (card, champ) :: fresh_cards flag ({[champ]} ∪ seen) rest
      | Raise _ => []
      end
  end.

(** The browser keeps a written [scrollLeft] inside the scrollable range
    of the node, and scrolling changes neither of its widths. *)
Definition clamping {Session} (ops : PageOps Session) (node : nat) : Prop :=
  forall v s,
    op_scrollLeft ops node (op_set_scrollLeft ops node v s)
    = Z.max 0 (Z.min v (op_scrollWidth ops node s - op_clientWidth ops node s))
    /\ op_clientWidth ops node (op_set_scrollLeft ops node v s)
       = op_clientWidth ops node s
    /\ op_scrollWidth ops node (op_set_scrollLeft ops node v s)
       = op_scrollWidth ops node s.

(** What is left to scroll. *)
Definition scroll_gap {Session} (ops : PageOps Session) (node : nat) (s : Session) : Z :=
  op_scrollWidth ops node s - op_clientWidth ops node s - op_scrollLeft ops node s.

(** [w'] comes after [w]: the calls made in between are [mid], none of
    them closes the page, and [self.page], once set, stays set. *)
Definition extends_by {Session} (w w' : World Session) (mid : list PageCall) : Prop :=
  calls w' = (calls w ++ mid)%list
  /\ (CallClose ∉ mid)
  /\ (self_page w = true -> self_page w' = true).

(** A computation all of whose runs extend the world in that way. *)
Definition framed {Session A} (m : M Session A) : Prop :=
  forall w out w', m w = Some (out, w') -> exists mid, extends_by w w' mid.


(** ** Vocabulary for the row parsers *)

(** A field that reads a text or a number under a selector and has no
    transform. *)
Definition plain_field (spec : FieldSpec) : Prop :=
  exists sel kind,
    spec = (Some sel, Some kind, None)
    /\ str_truthy sel = true
    /\ (kind = "text" \/ kind = "number").

(** The page after the wheel steps of [auto_scroll]. *)
Fixpoint scrolled {Session} (ops : PageOps Session) (delay_ms step : Z)
    (max_scrolls : nat) (s : Session) : Session :=
  match max_scrolls with
  | O => s
  | S n =>
      scrolled ops delay_ms step n
               (op_wait_for_timeout ops delay_ms (op_mouse_wheel ops 0 step s))
  end.

(** The records [parse_element] maps the elements to on the page [s], in
    the order of the elements, those it gives no record for left out. *)
Definition mapped_records {Session Rec} (ops : PageOps Session)
    (schema_cls : Schema Rec) (fields : dict FieldSpec) (s : Session)
    (elements : list ElementHandle) : list Rec :=
  omap (fun element =>
          fst (parse_element (fun sel => Ok (op_query_selector ops sel s))
                             element schema_cls fields))
       elements.

(** ** A page of rows to run the row parsers on *)
Module RowsPage.

(** A page that shows [rows] under the selector of the tier list and
    [cards] under the selector of the counters page, and nothing else;
    nothing on it changes. *)
Definition ops (rows cards : list ElementHandle) : PageOps unit := {|
  op_new_page := fun s => (Ok tt, s);
  op_goto := fun _ s => (Ok tt, s);
  op_mouse_wheel := fun _ _ s => s;
  op_wait_for_timeout := fun _ s => s;
  op_wait_for_selector := fun _ _ s => (Raise TimeoutError, s);
  op_query_selector := fun _ _ => None;
  op_query_selector_all := fun sel _ =>
    if String.eqb sel meta_rows_selector then rows
    else if String.eqb sel counter_cards_selector then cards
    else [];
  op_scrollLeft := fun _ _ => 0;
  op_clientWidth := fun _ _ => 0;
  op_scrollWidth := fun _ _ => 0;
  op_set_scrollLeft := fun _ _ s => s;
  op_click := fun _ s => (Ok tt, s);
  op_tick := fun s => s;
  op_polls := fun _ => 0%nat;
  op_close := fun s => s
|}.

(** A record class that keeps its arguments and takes [games] only as a
    whole number: a number written with digits after the point is
    rejected. *)
Definition whole_games_schema : Schema (dict value) := {|
  schema_name := "WholeGames";
  construct := fun values =>
    match dict_get values "games" with
    | Some (VNum d) =>
        match dec_scale d with
        | O => Ok values
        | S _ => Raise ValueError
        end
    | _ => Ok values
    end
|}.

(** A row of the tier list with a name and a number of games. *)
Definition tier_row (name games : string) : ElementHandle :=
  TestPage.card None [("div:nth-of-type(3)", name);
                      ("div:nth-of-type(10)", games)].

(** The two header rows, then three champions, the second with a number of
    games the record class rejects. *)
Definition tier_rows : list ElementHandle :=
  [tier_row "Rank" ""; tier_row "Name" "";
   tier_row "Ahri" "1500"; tier_row "Brand" "12.5"; tier_row "Zed" "900"].

(** A card of the counters page with both delta spans. *)
Definition counter_card (champion delta_1 delta_2 : string) : ElementHandle :=
  TestPage.card None [("div > a > div > div:nth-of-type(1)", champion);
                      (delta_1_selector, delta_1);
                      (delta_2_selector, delta_2)].

(** Three cards, the second without its delta spans. *)
Definition counter_cards : list ElementHandle :=
  [counter_card "Darius" "d=1.5" "d=-0.4";
   TestPage.card None [("div > a > div > div:nth-of-type(1)", "Fiora")];
   counter_card "Garen" "d=0.2" "d=2"].

End RowsPage.

(** * Properties *)

(** ** Text and numbers *)

Lemma py_int_raises_ValueError (s : string) :
  (exists n, py_int s = Ok n) \/ py_int s = Raise ValueError.
Proof.
  assert (H : exists neg d, py_int s = int_of_digits neg d).
  { unfold py_int.
    destruct (rstrip int_isspace (lstrip int_isspace s)) as [|c d]; [eauto|].
    destruct c as [[] [] [] [] [] [] [] []]; eauto. }
  destruct H as (neg & d & ->). unfold int_of_digits.
  destruct (int_digits 0 false d); eauto.
Qed.

(** ** OP.GG *)

(** C10.  [_parse_win_loss] is total: on every list of strings it returns a
    pair and raises nothing; on a list of fewer than three elements the pair
    is (None, None).  A list of two elements passes the length guard, and
    the IndexError of [wl_data[2]] is caught. *)
Theorem parse_win_loss_total (wl_data : list string) :
  (exists v, _parse_win_loss wl_data = Ok v)
  /\ ((length wl_data < 3)%nat -> _parse_win_loss wl_data = Ok (None, None)).
Proof.
  destruct wl_data as [|a [|b [|c r]]]; cbn.
  - split; eauto.
  - split; eauto.
  - split; [eexists|intros _]; reflexivity.
  - split; [|intros H; cbn in H; lia].
    unfold _parse_win_loss, py_index; cbn.
    destruct (str_truthy a), (str_truthy c); cbn;
      try destruct (py_int_raises_ValueError a) as [[n ->]| ->];
      try destruct (py_int_raises_ValueError c) as [[m ->]| ->];
      cbn; eauto.
Qed.

Lemma parse_win_loss_total_witness :
  (length ["123W"; "45L"] < 3)%nat
  /\ _parse_win_loss ["123W"; "45L"] = Ok (None, None).
Proof.
  split; [cbn; lia|].
  apply (proj2 (parse_win_loss_total ["123W"; "45L"])). cbn; lia.
Defined.

(** ** extract_number *)


(** ** Dictionaries *)

Lemma dict_get_set_eq {V} (d : dict V) (k : string) (v : V) :
  dict_get (dict_set d k v) k = Some v.
Proof.
  induction d as [|[k' v'] d IH]; cbn.
  - now rewrite String.eqb_refl.
  - destruct (String.eqb k' k) eqn:E; cbn; rewrite E; [reflexivity | exact IH].
Qed.

Lemma dict_get_set_ne {V} (d : dict V) (k k' : string) (v : V) :
  k <> k' -> dict_get (dict_set d k v) k' = dict_get d k'.
Proof.
  intros Hne. induction d as [|[k0 v0] d IH]; cbn.
  - destruct (String.eqb_spec k k'); [contradiction | reflexivity].
  - destruct (String.eqb_spec k0 k) as [->|Hk]; cbn.
    + destruct (String.eqb_spec k k'); [contradiction | reflexivity].
    + destruct (String.eqb_spec k0 k'); [reflexivity | exact IH].
Qed.

Lemma dict_get_set_mono {V} (d : dict V) (k k' : string) (v : V) :
  is_Some (dict_get d k') -> is_Some (dict_get (dict_set d k v) k').
Proof.
  intros H. destruct (String.eqb_spec k k') as [->|Hne].
  - rewrite dict_get_set_eq. eauto.
  - now rewrite dict_get_set_ne.
Qed.

(** Assigning twice to a key is assigning once. *)
Lemma dict_set_set {V} (d : dict V) (k : string) (v v' : V) :
  dict_set (dict_set d k v) k v' = dict_set d k v'.
Proof.
  induction d as [|[k0 v0] d IH]; cbn.
  - now rewrite String.eqb_refl.
  - destruct (String.eqb k0 k) eqn:E; cbn; rewrite E; [reflexivity | now rewrite IH].
Qed.

(** ** parse_element *)

(** C2, on the code.  With a null locator the transform is applied at
    line 30 and again at line 35: the field's final value is the transform
    applied to its own result on None.  At a table with one such field and
    a transform that tells None from a text, the value is "x!", where the
    transform applied once to None gives "x". *)
Theorem null_locator_transform_twice :
  (forall page_query element value_type (t : Transform),
      field_value page_query element (None, value_type, Some t)
      = (rbind (t VNone) t, []))
  /\ parse_element (fun _ => Ok None) (TestPage.leaf "") TestPage.plain_schema
                   [("champion", (None, None, Some TestPage.exclaim))]
     = (Some [("champion", VStr "x!")], [])
  /\ TestPage.exclaim VNone = Ok (VStr "x").
Proof. split; [|split]; reflexivity. Qed.

Section ParseElement.
Context {Rec : Type}.
Variable page_query : string -> result (option ElementHandle).
Variable element : ElementHandle.

Lemma parse_fields_ok (fields : dict FieldSpec) :
  forall values vals logs,
    parse_fields page_query element fields values = (Ok vals, logs) ->
    (forall name spec, (name, spec) ∈ fields ->
       is_Some (dict_get vals name)
       /\ exists v, fst (field_value page_query element spec) = Ok v)
    /\ (forall name, is_Some (dict_get values name) -> is_Some (dict_get vals name)).
Proof.
  induction fields as [|[name spec] rest IH]; intros values vals logs H; cbn in H.
  - inversion H; subst. split; [intros ? ? Hin; inversion Hin | auto].
  - destruct (field_value page_query element spec) as [[v|e] l0] eqn:Ef; [|discriminate].
    destruct (parse_fields page_query element rest (dict_set values name v))
      as [r' l'] eqn:Er.
    inversion H; subst.
    destruct (IH _ _ _ Er) as [IH1 IH2].
    split.
    + intros n sp Hin. apply elem_of_cons in Hin as [Heq|Hin].
      * inversion Heq; subst. split.
        -- apply IH2. rewrite dict_get_set_eq. eauto.
        -- exists v. now rewrite Ef.
      * now apply IH1.
    + intros n Hn. apply IH2. now apply dict_get_set_mono.
Qed.

Lemma parse_fields_fault (fields : dict FieldSpec) (name : string)
    (spec : FieldSpec) (e : exn) :
  (name, spec) ∈ fields ->
  fst (field_value page_query element spec) = Raise e ->
  forall values, exists e' logs,
    parse_fields page_query element fields values = (Raise e', logs).
Proof.
  intros Hin Hf values.
  destruct (parse_fields page_query element fields values) as [[vals|e'] logs] eqn:E.
  - destruct (parse_fields_ok _ _ _ _ E) as [H _].
    destruct (H _ _ Hin) as [_ [v Hv]]. congruence.
  - eauto.
Qed.


End ParseElement.

(** ** The card loop *)

Section Cards.
Context {Session Rec : Type}.
Variable ops : PageOps Session.
Variable CounterCardV2 : Schema Rec.
Variable flag : string.
Variable parse_element_func : @ParseElementFunc Session Rec.

Abbreviation card_body := (process_card CounterCardV2 flag parse_element_func).
Abbreviation card_loop := (process_cards CounterCardV2 flag parse_element_func).

(** The three ways through the body of [for card in cards]. *)
Lemma process_card_cases (card : ElementHandle) (st : LaneState Rec)
    (w : World Session) :
  match card_champ flag card with
  | Raise e => card_body card st w = Some (Raise e, w)
  | Ok champ =>
      if decide (champ ∈ seen_champions st)
      then card_body card st w = Some (Ok st, w)
      else
        let fields := dict_set (counter_fields st) "champion"
                               (None, None, Some (const_champ champ)) in
        match parse_element_func card CounterCardV2 fields (session w) with
        | (Ok parsed, logs) =>
            card_body card st w
            = Some (Ok (mkLane ({[champ]} ∪ seen_champions st)
                               (counters st ++ [parsed])%list fields),
                    with_logs w logs)
        | (Raise e, logs) =>
            card_body card st w = Some (Raise e, with_logs w logs)
        end
  end.
Proof.
  unfold process_card, mbind, of_result.
  destruct (card_champ flag card) as [champ|e]; [|reflexivity].
  destruct (decide (champ ∈ seen_champions st)); [reflexivity|].
  cbn. destruct (parse_element_func _ _ _ _) as [[parsed|e] logs]; reflexivity.
Qed.

Lemma process_cards_cons (card : ElementHandle) (rest : list ElementHandle)
    (st : LaneState Rec) (w : World Session) :
  card_loop (card :: rest) st w
  = match card_body card st w with
    | None => None
    | Some (Ok st', w') => card_loop rest st' w'
    | Some (Raise e, w') => Some (Raise e, w')
    end.
Proof. reflexivity. Qed.

Lemma with_logs_nil (w : World Session) : with_logs w [] = w.
Proof. unfold with_logs. rewrite app_nil_r. now destruct w. Qed.

Lemma with_logs_app (w : World Session) (l1 l2 : list LogRecord) :
  with_logs (with_logs w l1) l2 = with_logs w (l1 ++ l2)%list.
Proof. unfold with_logs; cbn. now rewrite app_assoc. Qed.

(** The card loop uses no budget, and touches the log only. *)
Lemma process_cards_world (cards : list ElementHandle) :
  forall st w, exists r logs, card_loop cards st w = Some (r, with_logs w logs).
Proof.
  induction cards as [|card rest IH]; intros st w.
  - exists (Ok st), []. now rewrite with_logs_nil.
  - rewrite process_cards_cons. pose proof (process_card_cases card st w) as H.
    destruct (card_champ flag card) as [champ|e].
    + destruct (decide (champ ∈ seen_champions st)).
      * rewrite H. apply IH.
      * cbv zeta in H. destruct (parse_element_func _ _ _ _) as [[parsed|e] logs];
          rewrite H.
        -- destruct (IH (mkLane ({[champ]} ∪ seen_champions st)
                                (counters st ++ [parsed])%list
                                (dict_set (counter_fields st) "champion"
                                   (None, None, Some (const_champ champ))))
                        (with_logs w logs)) as (r & logs' & ->).
           exists r, (logs ++ logs')%list. now rewrite with_logs_app.
        -- eauto.
    + rewrite H. exists (Raise e), []. now rewrite with_logs_nil.
Qed.

Lemma process_card_inv (fields : dict FieldSpec)
    (picked : list (ElementHandle * option string))
    (card : ElementHandle) (st st' : LaneState Rec) (w w' : World Session) :
  lane_inv CounterCardV2 flag parse_element_func fields picked st ->
  card_body card st w = Some (Ok st', w') ->
  exists picked',
    lane_inv CounterCardV2 flag parse_element_func fields picked' st'.
Proof.
  intros (Hnd & Hkeys & Hseen & Hmap & Hfields) H.
  pose proof (process_card_cases card st w) as Hc.
  destruct (card_champ flag card) as [champ|e] eqn:Ek; [|congruence].
  destruct (decide (champ ∈ seen_champions st)) as [Hin|Hnin].
  - rewrite Hc in H. inversion H; subst. exists picked. repeat split; auto.
  - cbv zeta in Hc.
    destruct (parse_element_func _ _ _ _) as [[parsed|e] logs] eqn:Ep;
      rewrite Hc in H; inversion H; subst; clear H.
    exists (picked ++ [(card, champ)])%list. repeat split; cbn.
    + rewrite fmap_app. cbn. apply NoDup_app. split; [exact Hnd|]. split.
      * intros k Hk Hk'. apply list_elem_of_singleton in Hk'. subst k.
        apply Hnin. rewrite Hseen. now apply elem_of_list_to_set.
      * apply NoDup_singleton.
    + apply Forall_app. split; [exact Hkeys|]. constructor; [exact Ek | constructor].
    + rewrite fmap_app, list_to_set_app_L, Hseen. cbn.
      rewrite (right_id_L ∅ (∪)). apply (comm_L (∪)).
    + apply Forall2_app; [exact Hmap|]. constructor; [|constructor].
      exists (session w), logs. cbn. rewrite <- Hfields. exact Ep.
    + intros spec. rewrite dict_set_set. apply Hfields.
Qed.

Lemma process_cards_inv (fields : dict FieldSpec) (cards : list ElementHandle) :
  forall picked st st' w w',
    lane_inv CounterCardV2 flag parse_element_func fields picked st ->
    card_loop cards st w = Some (Ok st', w') ->
    exists picked',
      lane_inv CounterCardV2 flag parse_element_func fields picked' st'.
Proof.
  induction cards as [|card rest IH]; intros picked st st' w w' Hinv H.
  - inversion H; subst. eauto.
  - rewrite process_cards_cons in H.
    destruct (card_body card st w) as [[[st1|e] w1]|] eqn:E1; try discriminate.
    destruct (process_card_inv _ _ _ _ _ _ _ Hinv E1) as [picked1 Hinv1].
    eapply IH; eauto.
Qed.

(** What the card loop returns depends on the page only, not on the log
    or on the calls made before. *)
Lemma process_card_session (card : ElementHandle) (st : LaneState Rec)
    (w w2 : World Session) :
  session w2 = session w ->
  exists r logs,
    card_body card st w = Some (r, with_logs w logs)
    /\ card_body card st w2 = Some (r, with_logs w2 logs).
Proof.
  intros Hs.
  pose proof (process_card_cases card st w) as H.
  pose proof (process_card_cases card st w2) as H2.
  rewrite Hs in H2.
  destruct (card_champ flag card) as [champ|e].
  - destruct (decide (champ ∈ seen_champions st)).
    + exists (Ok st), []. now rewrite !with_logs_nil.
    + cbv zeta in H, H2.
      destruct (parse_element_func _ _ _ _) as [[parsed|e] logs]; eauto.
  - exists (Raise e), []. now rewrite !with_logs_nil.
Qed.

Lemma process_cards_session (cards : list ElementHandle) :
  forall st w w2,
    session w2 = session w ->
    exists r logs,
      card_loop cards st w = Some (r, with_logs w logs)
      /\ card_loop cards st w2 = Some (r, with_logs w2 logs).
Proof.
  induction cards as [|card rest IH]; intros st w w2 Hs.
  - exists (Ok st), []. now rewrite !with_logs_nil.
  - rewrite !process_cards_cons.
    destruct (process_card_session card st w w2 Hs) as (r & logs & -> & ->).
    destruct r as [st1|e]; [|eauto].
    destruct (IH st1 (with_logs w logs) (with_logs w2 logs)) as (r & logs' & -> & ->);
      [exact Hs|].
    exists r, (logs ++ logs')%list. now rewrite !with_logs_app.
Qed.

(** Cards whose keys are all seen already leave the lane as it is. *)
Lemma process_cards_seen (cards : list ElementHandle) (st : LaneState Rec)
    (w : World Session) :
  (forall card, card ∈ cards ->
     exists champ, card_champ flag card = Ok champ /\ champ ∈ seen_champions st) ->
  card_loop cards st w = Some (Ok st, w).
Proof.
  induction cards as [|card rest IH]; intros H; [reflexivity|].
  rewrite process_cards_cons.
  pose proof (process_card_cases card st w) as Hc.
  destruct (H card) as (champ & Hk & Hin); [left|].
  rewrite Hk in Hc. destruct (decide (champ ∈ seen_champions st)); [|contradiction].
  rewrite Hc. apply IH. intros c Hc'. apply H. now right.
Qed.

(** A card whose key cannot be computed makes the card loop raise: that
    fault, or the fault of a card before it. *)
Lemma process_cards_fault (cards : list ElementHandle) (card : ElementHandle)
    (e : exn) :
  card ∈ cards -> card_champ flag card = Raise e ->
  forall st w, exists e' logs,
    card_loop cards st w = Some (Raise e', with_logs w logs).
Proof.
  intros Hin Hk. induction cards as [|c rest IH]; intros st w; [inversion Hin|].
  rewrite process_cards_cons. pose proof (process_card_cases c st w) as H.
  apply elem_of_cons in Hin as [<-|Hin].
  - rewrite Hk in H. rewrite H. exists e, []. now rewrite with_logs_nil.
  - destruct (card_champ flag c) as [champ|e0].
    + destruct (decide (champ ∈ seen_champions st)).
      * rewrite H. now apply IH.
      * cbv zeta in H.
        destruct (parse_element_func _ _ _ _) as [[parsed|e1] logs]; rewrite H.
        -- destruct (IH Hin (mkLane ({[champ]} ∪ seen_champions st)
                                (counters st ++ [parsed])%list
                                (dict_set (counter_fields st) "champion"
                                   (None, None, Some (const_champ champ))))
                        (with_logs w logs)) as (e' & logs' & ->).
           exists e', (logs ++ logs')%list. now rewrite with_logs_app.
        -- eauto.
    + rewrite H. exists e0, []. now rewrite with_logs_nil.
Qed.

End Cards.

Section CardsSelf.
Context {Session Rec : Type}.
Variable ops : PageOps Session.
Variable CounterCardV2 : Schema Rec.
Variable flag : string.

(** [self.parse_element] raises nothing. *)
Lemma self_parse_element_ok (card : ElementHandle) (fields : dict FieldSpec)
    (s : Session) :
  exists parsed logs,
    self_parse_element ops card CounterCardV2 fields s = (Ok parsed, logs).
Proof.
  unfold self_parse_element.
  destruct (parse_element _ card CounterCardV2 fields) as [r logs]. eauto.
Qed.

(** With [self.parse_element] as the mapper, the card loop runs to its end
    whenever every key can be computed, and every key is then marked seen. *)
Lemma process_cards_self_ok (cards : list ElementHandle) :
  (forall c, c ∈ cards -> exists k, card_champ flag c = Ok k) ->
  forall st w, exists st' logs,
    process_cards CounterCardV2 flag (self_parse_element ops) cards st w
    = Some (Ok st', with_logs w logs)
    /\ seen_champions st ⊆ seen_champions st'
    /\ forall c k, c ∈ cards -> card_champ flag c = Ok k -> k ∈ seen_champions st'.
Proof.
  induction cards as [|c rest IH]; intros Hk st w.
  - exists st, []. rewrite with_logs_nil. split; [reflexivity|].
    split; [reflexivity|]. intros c k Hin; inversion Hin.
  - rewrite process_cards_cons.
    pose proof (process_card_cases CounterCardV2 flag (self_parse_element ops) c st w) as H.
    destruct (Hk c) as [k Hck]; [left|]. rewrite Hck in H.
    assert (Hrest : forall c', c' ∈ rest -> exists k', card_champ flag c' = Ok k').
    { intros c' Hc'. apply Hk. now right. }
    destruct (decide (k ∈ seen_champions st)) as [Hin|Hnin].
    + rewrite H. destruct (IH Hrest st w) as (st' & logs & -> & Hsub & Hall).
      exists st', logs. split; [reflexivity|]. split; [exact Hsub|].
      intros c' k' Hc' Hk'. apply elem_of_cons in Hc' as [->|Hc'].
      * assert (k' = k) by congruence. subst. now apply Hsub.
      * eauto.
    + cbv zeta in H.
      destruct (self_parse_element_ok c
                  (dict_set (counter_fields st) "champion"
                            (None, None, Some (const_champ k))) (session w))
        as (parsed & logs & Ep).
      rewrite Ep in H. rewrite H.
      destruct (IH Hrest (mkLane ({[k]} ∪ seen_champions st)
                                 (counters st ++ [parsed])%list
                                 (dict_set (counter_fields st) "champion"
                                    (None, None, Some (const_champ k))))
                   (with_logs w logs)) as (st' & logs' & -> & Hsub & Hall).
      cbn [seen_champions] in Hsub.
      exists st', (logs ++ logs')%list. rewrite with_logs_app.
      split; [reflexivity|]. split; [set_solver|].
      intros c' k' Hc' Hk'. apply elem_of_cons in Hc' as [->|Hc'].
      * assert (k' = k) by congruence. subst. apply Hsub. set_solver.
      * eauto.
Qed.

End CardsSelf.

(** ** The lane loop *)

Section Lanes.
Context {Session Rec : Type}.
Variable ops : PageOps Session.
Variable CounterCardV2 : Schema Rec.
Variable flag : string.
Variable parse_element_func : @ParseElementFunc Session Rec.
Variable scroll_containers : list ElementHandle.
Variable i : nat.

Abbreviation process_cards' := (process_cards CounterCardV2 flag parse_element_func).
Abbreviation lane_iteration' :=
  (lane_iteration ops CounterCardV2 flag parse_element_func scroll_containers i).
Abbreviation lane_loop' :=
  (fun fuel => lane_loop ops CounterCardV2 flag parse_element_func fuel
                         scroll_containers i).
Abbreviation iterations' :=
  (fun k => iterations ops CounterCardV2 flag parse_element_func k
                       scroll_containers i).

Abbreviation after_scroll' := (after_scroll ops i).

(** One pass, step by step. *)
Lemma lane_iteration_unfold (st : LaneState Rec) (w : World Session) :
  lane_iteration' st w =
  match scroll_containers !! i with
  | None => Some (Raise IndexError, w)
  | Some c =>
      let w2 := after_scroll' (node_id c) w in
      match process_cards'
              (op_query_selector_all ops (cards_selector i) (session w2)) st w2 with
      | None => None
      | Some (Raise e, w3) => Some (Raise e, w3)
      | Some (Ok st', w3) =>
          Some (Ok (st', scroll_exhausted ops (node_id c) (session w3)),
                after_call w3 (CallEvaluateExhausted (node_id c)) (session w3))
      end
  end.
Proof.
  unfold lane_iteration, py_index, mbind, of_result.
  destruct (scroll_containers !! i) as [c|]; [|reflexivity].
  cbn. destruct (process_cards' _ st _) as [[[st'|e] w3]|]; reflexivity.
Qed.

Lemma lane_loop_S (fuel : nat) (st : LaneState Rec) (w : World Session) :
  lane_loop' (S fuel) st w =
  match lane_iteration' st w with
  | None => None
  | Some (Ok (st', stop), w') =>
      if stop then Some (Ok st', w') else lane_loop' fuel st' w'
  | Some (Raise e, w') => Some (Raise e, w')
  end.
Proof.
  change (lane_loop' (S fuel) st w)
    with (mbind (lane_iteration' st)
                (fun r => if snd r then mret (fst r) else lane_loop' fuel (fst r)) w).
  unfold mbind.
  destruct (lane_iteration' st w) as [[[[st' stop]|e] w']|]; try reflexivity.
  cbn [fst snd]. destruct stop; reflexivity.
Qed.

Lemma iterations_S (k : nat) (st : LaneState Rec) (w : World Session) :
  iterations' (S k) st w =
  match lane_iteration' st w with
  | None => None
  | Some (Ok (st', _), w') => iterations' k st' w'
  | Some (Raise e, w') => Some (Raise e, w')
  end.
Proof.
  change (iterations' (S k) st w)
    with (mbind (lane_iteration' st) (fun r => iterations' k (fst r)) w).
  unfold mbind.
  destruct (lane_iteration' st w) as [[[[st' stop]|e] w']|]; reflexivity.
Qed.

(** A pass always comes to an end. *)
Lemma lane_iteration_some (st : LaneState Rec) (w : World Session) :
  exists out, lane_iteration' st w = Some out.
Proof.
  rewrite lane_iteration_unfold.
  destruct (scroll_containers !! i) as [c|]; [|eauto].
  cbv zeta.
  destruct (process_cards_world CounterCardV2 flag parse_element_func
              (op_query_selector_all ops (cards_selector i)
                 (session (after_scroll' (node_id c) w)))
              st (after_scroll' (node_id c) w)) as (r & logs & ->).
  destruct r; eauto.
Qed.

(** The flag a pass returns is the end-of-scroll test on the page as the
    pass leaves it. *)
Lemma lane_iteration_stop (st st' : LaneState Rec) (stop : bool)
    (w w' : World Session) :
  lane_iteration' st w = Some (Ok (st', stop), w') ->
  exists c, scroll_containers !! i = Some c
            /\ stop = scroll_exhausted ops (node_id c) (session w').
Proof.
  rewrite lane_iteration_unfold.
  destruct (scroll_containers !! i) as [c|]; [|discriminate].
  cbv zeta. destruct (process_cards' _ st _) as [[[st1|e] w3]|]; try discriminate.
  intros H; inversion H; subst. exists c. split; reflexivity.
Qed.

(** More budget does not change what the loop returns. *)
Lemma lane_loop_mono (fuel : nat) :
  forall st w out fuel',
    lane_loop' fuel st w = Some out -> (fuel <= fuel')%nat ->
    lane_loop' fuel' st w = Some out.
Proof.
  induction fuel as [|fuel IH]; intros st w out fuel' H Hle; [discriminate|].
  destruct fuel' as [|fuel']; [lia|].
  rewrite lane_loop_S in *.
  destruct (lane_iteration' st w) as [[[[st1 stop]|e] w1]|]; try assumption.
  destruct stop; [assumption|]. apply IH; [assumption | lia].
Qed.

Lemma lane_loop_deterministic (fuel1 fuel2 : nat) (st : LaneState Rec)
    (w : World Session) out1 out2 :
  lane_loop' fuel1 st w = Some out1 ->
  lane_loop' fuel2 st w = Some out2 ->
  out1 = out2.
Proof.
  intros H1 H2.
  apply lane_loop_mono with (fuel' := Nat.max fuel1 fuel2) in H1; [|lia].
  apply lane_loop_mono with (fuel' := Nat.max fuel1 fuel2) in H2; [|lia].
  congruence.
Qed.

(** The loop returns at the first pass that ends with the test true. *)
Lemma lane_loop_returns (fuel : nat) :
  forall st w st' w',
    lane_loop' fuel st w = Some (Ok st', w') ->
    exists k c,
      (k < fuel)%nat
      /\ iterations' (S k) st w = Some (Ok st', w')
      /\ scroll_containers !! i = Some c
      /\ scroll_exhausted ops (node_id c) (session w') = true
      /\ forall j stj wj,
           (j < k)%nat -> iterations' (S j) st w = Some (Ok stj, wj) ->
           scroll_exhausted ops (node_id c) (session wj) = false.
Proof.
  induction fuel as [|fuel IH]; intros st w st' w' H; [discriminate|].
  rewrite lane_loop_S in H.
  destruct (lane_iteration' st w) as [[[[st1 stop]|e] w1]|] eqn:E; try discriminate.
  destruct (lane_iteration_stop _ _ _ _ _ E) as (c & Hc & Hstop).
  destruct stop.
  - inversion H; subst. exists 0%nat, c.
    split; [lia|]. split; [now rewrite iterations_S, E|].
    split; [exact Hc|]. split; [now symmetry|].
    intros j stj wj Hj. lia.
  - destruct (IH _ _ _ _ H) as (k & c' & Hk & Hit & Hc' & Hex & Hfirst).
    assert (c' = c) by congruence. subst c'.
    exists (S k), c.
    split; [lia|]. split; [now rewrite iterations_S, E|].
    split; [exact Hc|]. split; [exact Hex|].
    intros j stj wj Hj Hitj. rewrite iterations_S, E in Hitj.
    destruct j as [|j].
    + cbn in Hitj. inversion Hitj; subst. now symmetry.
    + apply (Hfirst j stj wj); [lia | exact Hitj].
Qed.

(** If some pass ends with the test true, the loop returns. *)
Lemma lane_loop_reaches (k : nat) :
  forall st w st' w' c,
    iterations' (S k) st w = Some (Ok st', w') ->
    scroll_containers !! i = Some c ->
    scroll_exhausted ops (node_id c) (session w') = true ->
    exists fuel st'' w'', lane_loop' fuel st w = Some (Ok st'', w'').
Proof.
  induction k as [|k IH]; intros st w st' w' c Hit Hc Hex;
    rewrite iterations_S in Hit;
    destruct (lane_iteration' st w) as [[[[st1 stop]|e] w1]|] eqn:E; try discriminate;
    destruct (lane_iteration_stop _ _ _ _ _ E) as (c' & Hc' & Hstop);
    assert (c' = c) by congruence; subst c'.
  - cbn in Hit. inversion Hit; subst.
    exists 1%nat, st', w'. rewrite lane_loop_S, E, Hex. reflexivity.
  - destruct stop eqn:Es.
    + exists 1%nat, st1, w1. rewrite lane_loop_S, E. reflexivity.
    + destruct (IH _ _ _ _ _ Hit Hc Hex) as (fuel & st'' & w'' & Hl).
      exists (S fuel), st'', w''. rewrite lane_loop_S, E. exact Hl.
Qed.

(** If every pass ends without a fault and with the test false, the loop
    is still running whatever the budget. *)
Lemma lane_loop_never_exhausted :
  forall fuel st w,
    (forall k, exists st' w',
        iterations' (S k) st w = Some (Ok st', w')
        /\ forall c, scroll_containers !! i = Some c ->
                     scroll_exhausted ops (node_id c) (session w') = false) ->
    lane_loop' fuel st w = None.
Proof.
  induction fuel as [|fuel IH]; intros st w H; [reflexivity|].
  rewrite lane_loop_S.
  destruct (H 0%nat) as (st0 & w0 & H0 & Hex0).
  rewrite iterations_S in H0.
  destruct (lane_iteration' st w) as [[[[st1 stop]|e] w1]|] eqn:E; try discriminate.
  cbn in H0. inversion H0; subst st0 w0.
  destruct (lane_iteration_stop _ _ _ _ _ E) as (c & Hc & Hstop).
  rewrite (Hex0 c Hc) in Hstop. subst stop.
  apply IH. intros k. destruct (H (S k)) as (st' & w' & Hk & Hexk).
  rewrite iterations_S, E in Hk. eauto.
Qed.

(** What a pass and the loop return depends on the page only. *)
Lemma lane_iteration_session (st : LaneState Rec) (w w2 : World Session) r w' :
  session w2 = session w ->
  lane_iteration' st w = Some (r, w') ->
  exists w2', lane_iteration' st w2 = Some (r, w2') /\ session w2' = session w'.
Proof.
  intros Hs. destruct w2 as [s2 p2 l2 c2]. cbn in Hs. subst s2.
  rewrite !lane_iteration_unfold.
  destruct (scroll_containers !! i) as [c|].
  - cbv zeta.
    destruct (process_cards_session CounterCardV2 flag parse_element_func
                (op_query_selector_all ops (cards_selector i)
                   (session (after_scroll' (node_id c) w)))
                st (after_scroll' (node_id c) w)
                (after_scroll' (node_id c) (mkWorld (session w) p2 l2 c2))
                eq_refl) as (r1 & logs & E1 & E2).
    rewrite E1. intros H.
    change (session (after_scroll' (node_id c) (mkWorld (session w) p2 l2 c2)))
      with (session (after_scroll' (node_id c) w)).
    rewrite E2.
    destruct r1 as [st1|e]; inversion H; subst; eexists; split; reflexivity.
  - intros H; inversion H; subst. eauto.
Qed.

Lemma lane_loop_session (fuel : nat) :
  forall st w w2 r w',
    session w2 = session w ->
    lane_loop' fuel st w = Some (r, w') ->
    exists w2', lane_loop' fuel st w2 = Some (r, w2') /\ session w2' = session w'.
Proof.
  induction fuel as [|fuel IH]; intros st w w2 r w' Hs H; [discriminate|].
  rewrite lane_loop_S in H. rewrite lane_loop_S.
  destruct (lane_iteration' st w) as [[r1 w1]|] eqn:E; [|discriminate].
  destruct (lane_iteration_session _ _ _ _ _ Hs E) as (w21 & -> & Hs1).
  destruct r1 as [[st1 stop]|e].
  - destruct stop.
    + inversion H; subst. eauto.
    + eapply IH; eauto.
  - inversion H; subst. eauto.
Qed.

Lemma lane_loop_inv (fields : dict FieldSpec) (fuel : nat) :
  forall picked st st' w w',
    lane_inv CounterCardV2 flag parse_element_func fields picked st ->
    lane_loop' fuel st w = Some (Ok st', w') ->
    exists picked',
      lane_inv CounterCardV2 flag parse_element_func fields picked' st'.
Proof.
  induction fuel as [|fuel IH]; intros picked st st' w w' Hinv H; [discriminate|].
  rewrite lane_loop_S in H.
  destruct (lane_iteration' st w) as [[[[st1 stop]|e] w1]|] eqn:E; try discriminate.
  assert (Hinv1 : exists picked1,
             lane_inv CounterCardV2 flag parse_element_func fields picked1 st1).
  { rewrite lane_iteration_unfold in E.
    destruct (scroll_containers !! i) as [c|]; [|discriminate].
    cbv zeta in E.
    destruct (process_cards' _ st _) as [[[st2|e] w3]|] eqn:Ep; try discriminate.
    inversion E; subst. eapply process_cards_inv; eauto. }
  destruct Hinv1 as [picked1 Hinv1].
  destruct stop.
  - inversion H; subst. eauto.
  - eapply IH; eauto.
Qed.

End Lanes.

(** ** The section *)

Section SectionLoop.
Context {Session Rec : Type}.
Variable ops : PageOps Session.
Variable CounterCardV2 : Schema Rec.
Variable flag : string.
Variable parse_element_func : @ParseElementFunc Session Rec.

Lemma lanes_cons (fuel : nat) (scroll_containers : list ElementHandle)
    (position : ElementHandle) (rest : list ElementHandle) (i : nat)
    (fields : dict FieldSpec) (common_data : list (@LaneData Rec))
    (w : World Session) :
  lanes ops CounterCardV2 flag parse_element_func fuel scroll_containers
        (position :: rest) i fields common_data w
  = match lane_loop ops CounterCardV2 flag parse_element_func fuel
                    scroll_containers i (mkLane ∅ [] fields) w with
    | None => None
    | Some (Ok st, w') =>
        lanes ops CounterCardV2 flag parse_element_func fuel scroll_containers
              rest (S i) (counter_fields st)
              (common_data ++ [(get_attribute position "alt", counters st)])%list w'
    | Some (Raise e, w') => Some (Raise e, w')
    end.
Proof. reflexivity. Qed.

(** The section, once the containers are there: the lanes are run on the
    handles the two queries return. *)
Lemma parse_common_section_unfold (fuel : nat) (fields : dict FieldSpec)
    (w : World Session) (s : Session) :
  op_wait_for_selector ops "div.cursor-grab" 10000 (session w) = (Ok tt, s) ->
  parse_common_section ops CounterCardV2 flag parse_element_func fuel fields w
  = lanes ops CounterCardV2 flag parse_element_func fuel
          (op_query_selector_all ops "div.cursor-grab" s)
          (op_query_selector_all ops positions_selector s)
          0 fields []
          (after_call
             (after_call
                (after_call w (CallWaitForSelector "div.cursor-grab" 10000) s)
                (CallQuerySelectorAll "div.cursor-grab") s)
             (CallQuerySelectorAll positions_selector) s).
Proof.
  intros H. unfold parse_common_section, mbind, page_do, page_read.
  rewrite H. reflexivity.
Qed.

End SectionLoop.

(** ** Exhaustion and termination *)

(** C5.  The loop of a lane returns if and only if some pass ends with
    scrollLeft + clientWidth >= scrollWidth - 5 on the lane's container; and
    when it returns, it returns at the first such pass, with the state of
    that pass.  (A fault in a pass ends the loop with an exception: the pass
    has no end then, and the lane no result.) *)
Theorem lane_loop_terminates_iff_exhausted
    {Session Rec : Type} (ops : PageOps Session) (CounterCardV2 : Schema Rec)
    (flag : string) (parse_element_func : @ParseElementFunc Session Rec)
    (scroll_containers : list ElementHandle) (i : nat)
    (st : LaneState Rec) (w : World Session) :
  ((exists fuel st' w',
       lane_loop ops CounterCardV2 flag parse_element_func fuel
                 scroll_containers i st w = Some (Ok st', w'))
   <->
   (exists k st' w' c,
       iterations ops CounterCardV2 flag parse_element_func (S k)
                  scroll_containers i st w = Some (Ok st', w')
       /\ scroll_containers !! i = Some c
       /\ op_scrollLeft ops (node_id c) (session w')
          + op_clientWidth ops (node_id c) (session w')
          >= op_scrollWidth ops (node_id c) (session w') - 5))
  /\ (forall fuel st' w',
        lane_loop ops CounterCardV2 flag parse_element_func fuel
                  scroll_containers i st w = Some (Ok st', w') ->
        exists k c,
          (k < fuel)%nat
          /\ iterations ops CounterCardV2 flag parse_element_func (S k)
                        scroll_containers i st w = Some (Ok st', w')
          /\ scroll_containers !! i = Some c
          /\ op_scrollLeft ops (node_id c) (session w')
             + op_clientWidth ops (node_id c) (session w')
             >= op_scrollWidth ops (node_id c) (session w') - 5
          /\ forall j stj wj,
               (j < k)%nat ->
               iterations ops CounterCardV2 flag parse_element_func (S j)
                          scroll_containers i st w = Some (Ok stj, wj) ->
               op_scrollLeft ops (node_id c) (session wj)
               + op_clientWidth ops (node_id c) (session wj)
               < op_scrollWidth ops (node_id c) (session wj) - 5).
Proof.
  assert (Hgeb : forall n s,
             scroll_exhausted ops n s = true
             <-> op_scrollLeft ops n s + op_clientWidth ops n s
                 >= op_scrollWidth ops n s - 5).
  { intros n s. unfold scroll_exhausted. rewrite Z.geb_le. lia. }
  assert (Hltb : forall n s,
             scroll_exhausted ops n s = false
             <-> op_scrollLeft ops n s + op_clientWidth ops n s
                 < op_scrollWidth ops n s - 5).
  { intros n s. destruct (scroll_exhausted ops n s) eqn:E.
    - apply Hgeb in E. split; [discriminate | lia].
    - split; [|reflexivity]. intros _.
      destruct (Z.lt_ge_cases (op_scrollLeft ops n s + op_clientWidth ops n s)
                              (op_scrollWidth ops n s - 5)) as [Hlt|Hge]; [exact Hlt|].
      assert (scroll_exhausted ops n s = true) by (apply Hgeb; lia). congruence. }
  split; [split|].
  - intros (fuel & st' & w' & H).
    destruct (lane_loop_returns _ _ _ _ _ _ _ _ _ _ _ H)
      as (k & c & _ & Hit & Hc & Hex & _).
    exists k, st', w', c. split; [exact Hit|]. split; [exact Hc|]. now apply Hgeb.
  - intros (k & st' & w' & c & Hit & Hc & Hex).
    eapply lane_loop_reaches; eauto. now apply Hgeb.
  - intros fuel st' w' H.
    destruct (lane_loop_returns _ _ _ _ _ _ _ _ _ _ _ H)
      as (k & c & Hk & Hit & Hc & Hex & Hfirst).
    exists k, c. split; [exact Hk|]. split; [exact Hit|]. split; [exact Hc|].
    split; [now apply Hgeb|].
    intros j stj wj Hj Hitj. apply Hltb. eauto.
Qed.

(** C1, as the code has it.  The loop has no bound on its passes: when
    every pass ends without a fault and with
    scrollLeft + clientWidth < scrollWidth - 5, the loop is still running
    after any number of passes, and nothing is reported. *)
Theorem lane_loop_has_no_bound
    {Session Rec : Type} (ops : PageOps Session) (CounterCardV2 : Schema Rec)
    (flag : string) (parse_element_func : @ParseElementFunc Session Rec)
    (scroll_containers : list ElementHandle) (i : nat)
    (st : LaneState Rec) (w : World Session) :
  (forall k, exists st' w',
      iterations ops CounterCardV2 flag parse_element_func (S k)
                 scroll_containers i st w = Some (Ok st', w')
      /\ forall c, scroll_containers !! i = Some c ->
           op_scrollLeft ops (node_id c) (session w')
           + op_clientWidth ops (node_id c) (session w')
           < op_scrollWidth ops (node_id c) (session w') - 5) ->
  forall bound,
    lane_loop ops CounterCardV2 flag parse_element_func bound
              scroll_containers i st w = None.
Proof.
  intros H bound. apply lane_loop_never_exhausted.
  intros k. destruct (H k) as (st' & w' & Hit & Hlt).
  exists st', w'. split; [exact Hit|].
  intros c Hc. specialize (Hlt c Hc). unfold scroll_exhausted.
  destruct (Z.geb_spec (op_scrollLeft ops (node_id c) (session w')
                        + op_clientWidth ops (node_id c) (session w'))
                       (op_scrollWidth ops (node_id c) (session w') - 5));
    [lia | reflexivity].
Qed.

(** *** A lane that does not move *)

Section Stuck.
Context {Session Rec : Type}.
Variable ops : PageOps Session.
Variable CounterCardV2 : Schema Rec.
Variable flag : string.
Variable scroll_containers : list ElementHandle.
Variable i : nat.
Variable c : ElementHandle.
Variable s0 : Session.
Hypothesis Hc : scroll_containers !! i = Some c.
Hypothesis Hfix : scroll_step ops (node_id c) s0 = s0.
Hypothesis Hkeys :
  forall card, card ∈ op_query_selector_all ops (cards_selector i) s0 ->
               exists k, card_champ flag card = Ok k.

Lemma stuck_pass (st : LaneState Rec) (w : World Session) :
  session w = s0 ->
  exists st' w',
    lane_iteration ops CounterCardV2 flag (self_parse_element ops)
                   scroll_containers i st w
    = Some (Ok (st', scroll_exhausted ops (node_id c) s0), w')
    /\ session w' = s0.
Proof.
  intros Hs. rewrite lane_iteration_unfold, Hc. cbv zeta.
  assert (Hs2 : session (after_scroll ops i (node_id c) w) = s0).
  { unfold after_scroll, after_call; cbn. now rewrite Hs. }
  rewrite Hs2.
  destruct (process_cards_self_ok ops CounterCardV2 flag _ Hkeys st
              (after_scroll ops i (node_id c) w)) as (st' & logs & -> & _).
  cbn [session with_logs]. rewrite Hs2.
  eexists _, _. split; reflexivity.
Qed.

Lemma stuck_iterations (k : nat) :
  forall st w, session w = s0 ->
    exists st' w',
      iterations ops CounterCardV2 flag (self_parse_element ops) k
                 scroll_containers i st w = Some (Ok st', w')
      /\ session w' = s0.
Proof.
  induction k as [|k IH]; intros st w Hs.
  - exists st, w. split; [reflexivity | exact Hs].
  - rewrite iterations_S.
    destruct (stuck_pass st w Hs) as (st1 & w1 & -> & Hs1).
    now apply IH.
Qed.

(** On such a lane, when the end-of-scroll test fails, the loop returns
    within no budget. *)
Lemma stuck_lane_runs_forever :
  scroll_exhausted ops (node_id c) s0 = false ->
  forall bound st w, session w = s0 ->
    lane_loop ops CounterCardV2 flag (self_parse_element ops) bound
              scroll_containers i st w = None.
Proof.
  intros Hex bound st w Hs. apply lane_loop_never_exhausted.
  intros k. destruct (stuck_iterations (S k) st w Hs) as (st' & w' & Hit & Hs').
  exists st', w'. split; [exact Hit|].
  intros c' Hc'. assert (c' = c) by congruence. subst c'. now rewrite Hs'.
Qed.

End Stuck.

Lemma stuck_page_keys (card : ElementHandle) :
  card ∈ op_query_selector_all TestPage.ops (cards_selector 0) TestPage.stuck_page ->
  exists k, card_champ "matchup" card = Ok k.
Proof.
  change (op_query_selector_all TestPage.ops (cards_selector 0) TestPage.stuck_page)
    with [TestPage.card_A].
  intros H. apply list_elem_of_singleton in H. subst card.
  eexists. reflexivity.
Qed.

(** C1, refuted as stated.  On a page whose lane has a viewport 100 wide
    (the scroll step is then 0) and a strip 1000 wide, the section is still
    running after any bound of passes. *)
Lemma stuck_page_exceeds_every_bound :
  ~ exists bound : nat,
      parse_common_section TestPage.ops TestPage.card_schema "matchup"
        (self_parse_element TestPage.ops) bound build_counter_fields
        (TestPage.start TestPage.stuck_page) <> None.
Proof.
  intros [bound H]. apply H.
  rewrite (parse_common_section_unfold _ _ _ _ _ _ _ TestPage.stuck_page)
    by reflexivity.
  change (op_query_selector_all TestPage.ops "div.cursor-grab" TestPage.stuck_page)
    with [TestPage.container 0].
  change (op_query_selector_all TestPage.ops positions_selector TestPage.stuck_page)
    with [TestPage.image (TestPage.mkTestLane (Some "top") 0 100 1000
                            [(50, TestPage.card_A)])].
  rewrite lanes_cons.
  rewrite (stuck_lane_runs_forever TestPage.ops TestPage.card_schema "matchup"
             [TestPage.container 0] 0 (TestPage.container 0) TestPage.stuck_page);
    try reflexivity.
  apply stuck_page_keys.
Qed.

Lemma lane_loop_has_no_bound_witness :
  lane_loop TestPage.ops TestPage.card_schema "matchup"
            (self_parse_element TestPage.ops) 1000
            [TestPage.container 0] 0 (mkLane ∅ [] build_counter_fields)
            (TestPage.start TestPage.stuck_page) = None.
Proof.
  apply (lane_loop_has_no_bound TestPage.ops TestPage.card_schema "matchup"
           (self_parse_element TestPage.ops) [TestPage.container 0] 0).
  intros k.
  destruct (stuck_iterations TestPage.ops TestPage.card_schema "matchup"
              [TestPage.container 0] 0 (TestPage.container 0) TestPage.stuck_page
              eq_refl eq_refl stuck_page_keys (S k)
              (mkLane ∅ [] build_counter_fields)
              (TestPage.start TestPage.stuck_page) eq_refl)
    as (st' & w' & Hit & Hs).
  exists st', w'. split; [exact Hit|].
  intros c Hc. inversion Hc; subst c. rewrite Hs. vm_compute. reflexivity.
Defined.

(** ** Deduplication *)

(** C4.  When the loop of a lane returns, its [counters] hold one record per
    identity key and no key twice: there is a list of cards, each with its
    key, the keys pairwise different and exactly those of [seen_champions],
    whose mapped records are the [counters], in order.  Cards whose keys are
    already seen are skipped: they leave the lane as it is.  And a second
    run over the same page gives the same lane, whatever its budget and
    whatever was logged or called before. *)
Theorem lane_dedup
    {Session Rec : Type} (ops : PageOps Session) (CounterCardV2 : Schema Rec)
    (flag : string) (parse_element_func : @ParseElementFunc Session Rec)
    (fuel : nat) (scroll_containers : list ElementHandle) (i : nat)
    (fields : dict FieldSpec) (w w' : World Session) (st' : LaneState Rec) :
  lane_loop ops CounterCardV2 flag parse_element_func fuel
            scroll_containers i (mkLane ∅ [] fields) w = Some (Ok st', w') ->
  (exists picked : list (ElementHandle * option string),
      NoDup picked.*2
      /\ Forall (fun ck => card_champ flag ck.1 = Ok ck.2) picked
      /\ seen_champions st' = list_to_set picked.*2
      /\ Forall2 (mapped_by CounterCardV2 parse_element_func fields)
                 picked (counters st'))
  /\ (forall cards st0 w0,
        (forall card, card ∈ cards ->
           exists champ, card_champ flag card = Ok champ
                         /\ champ ∈ seen_champions st0) ->
        process_cards CounterCardV2 flag parse_element_func cards st0 w0
        = Some (Ok st0, w0))
  /\ (forall fuel2 w2 r2 w2',
        session w2 = session w ->
        lane_loop ops CounterCardV2 flag parse_element_func fuel2
                  scroll_containers i (mkLane ∅ [] fields) w2 = Some (r2, w2') ->
        r2 = Ok st').
Proof.
  intros H. split; [|split].
  - assert (Hinv0 : lane_inv CounterCardV2 flag parse_element_func fields []
                             (mkLane ∅ [] fields)).
    { repeat split; cbn; try constructor. }
    destruct (lane_loop_inv ops CounterCardV2 flag parse_element_func
                scroll_containers i fields fuel _ _ _ _ _ Hinv0 H)
      as (picked & Hnd & Hkeys & Hseen & Hmap & _).
    exists picked. auto.
  - intros cards st0 w0. apply process_cards_seen.
  - intros fuel2 w2 r2 w2' Hs H2.
    destruct (lane_loop_session ops CounterCardV2 flag parse_element_func
                scroll_containers i fuel _ _ _ _ _ Hs H) as (w2'' & H' & _).
    pose proof (lane_loop_deterministic ops CounterCardV2 flag parse_element_func
                  scroll_containers i _ _ _ _ _ _ H' H2) as Heq.
    now inversion Heq.
Qed.

Lemma lane_dedup_witness :
  exists st' w',
    lane_loop TestPage.ops TestPage.card_schema "matchup"
              (self_parse_element TestPage.ops) 2
              [TestPage.container 0] 0 (mkLane ∅ [] build_counter_fields)
              (TestPage.start TestPage.overlap_page) = Some (Ok st', w')
    /\ length (counters st') = 3%nat
    /\ exists picked : list (ElementHandle * option string),
         NoDup picked.*2 /\ seen_champions st' = list_to_set picked.*2.
Proof.
  eexists _, _. split; [vm_compute; reflexivity|].
  split; [reflexivity|].
  match goal with
  | |- context [seen_champions ?st] =>
      destruct (lane_dedup TestPage.ops TestPage.card_schema "matchup"
                  (self_parse_element TestPage.ops) 2 [TestPage.container 0] 0
                  build_counter_fields (TestPage.start TestPage.overlap_page)
                  _ st eq_refl)
        as [(picked & Hnd & _ & Hseen & _) _]
  end.
  exists picked. split; assumption.
Defined.

(** ** Candidates without a key *)

(** C6, refuted as stated.  A card without an anchor, or whose link has too
    few segments, makes the whole section raise; the card after it is not
    processed and no lane is returned. *)
Lemma missing_key_aborts_section :
  fst <$> parse_common_section TestPage.ops TestPage.card_schema "matchup"
            (self_parse_element TestPage.ops) 5 build_counter_fields
            (TestPage.start TestPage.no_anchor_page)
  = Some (Raise AttributeError)
  /\ fst <$> parse_common_section TestPage.ops TestPage.card_schema "matchup"
               (self_parse_element TestPage.ops) 5 build_counter_fields
               (TestPage.start TestPage.short_link_page)
     = Some (Raise IndexError).
Proof. split; vm_compute; reflexivity. Qed.

(** C6, as the code has it.  A card whose identity key cannot be computed
    is not mapped: the fault of the key computation is raised from the card
    loop with the world as it was.  The pass the card is found in raises,
    so does the loop of the lane, and so does the loop over the lanes: the
    remaining cards and lanes are not processed. *)
Theorem missing_key_raises
    {Session Rec : Type} (ops : PageOps Session) (CounterCardV2 : Schema Rec)
    (flag : string) (parse_element_func : @ParseElementFunc Session Rec)
    (scroll_containers : list ElementHandle) (i : nat) (c card : ElementHandle)
    (e : exn) (w : World Session) :
  scroll_containers !! i = Some c ->
  card ∈ op_query_selector_all ops (cards_selector i)
           (session (after_scroll ops i (node_id c) w)) ->
  card_champ flag card = Raise e ->
  (forall st0 w0,
      process_card CounterCardV2 flag parse_element_func card st0 w0
      = Some (Raise e, w0))
  /\ (forall st, exists e' w',
        forall fuel,
          lane_loop ops CounterCardV2 flag parse_element_func (S fuel)
                    scroll_containers i st w
          = Some (Raise e', w'))
  /\ (forall fields, exists e' w',
        forall fuel position rest common_data,
          lanes ops CounterCardV2 flag parse_element_func (S fuel)
                scroll_containers (position :: rest) i fields common_data w
          = Some (Raise e', w')).
Proof.
  intros Hc Hin Hk.
  assert (Hloop : forall st, exists e' w',
             forall fuel,
               lane_loop ops CounterCardV2 flag parse_element_func (S fuel)
                         scroll_containers i st w
               = Some (Raise e', w')).
  { intros st.
    destruct (process_cards_fault CounterCardV2 flag parse_element_func _ _ _ Hin Hk
                st (after_scroll ops i (node_id c) w)) as (e' & logs & Hp).
    exists e', (with_logs (after_scroll ops i (node_id c) w) logs).
    intros fuel. rewrite lane_loop_S, lane_iteration_unfold, Hc. cbv zeta.
    now rewrite Hp. }
  split; [|split].
  - intros st0 w0.
    pose proof (process_card_cases CounterCardV2 flag parse_element_func card st0 w0)
      as H.
    now rewrite Hk in H.
  - exact Hloop.
  - intros fields. destruct (Hloop (mkLane ∅ [] fields)) as (e' & w' & H).
    exists e', w'. intros fuel position rest common_data.
    now rewrite lanes_cons, H.
Qed.

Lemma missing_key_raises_witness :
  process_card TestPage.card_schema "matchup" (self_parse_element TestPage.ops)
               TestPage.card_no_anchor (mkLane ∅ [] build_counter_fields)
               (TestPage.start TestPage.no_anchor_page)
  = Some (Raise AttributeError, TestPage.start TestPage.no_anchor_page).
Proof.
  apply (proj1 (missing_key_raises TestPage.ops TestPage.card_schema "matchup"
                  (self_parse_element TestPage.ops) [TestPage.container 0] 0
                  (TestPage.container 0) TestPage.card_no_anchor AttributeError
                  (TestPage.start TestPage.no_anchor_page)
                  eq_refl ltac:(vm_compute; left) eq_refl)).
Defined.

(** ** Records that fail to map *)

(** C3, at a lane whose first card does not validate.  The None that
    [parse_element] returns for it is appended to the lane's records, where
    the sibling loop of parse_counters_stats, on the same cards, keeps the
    parsed record only. *)
Theorem null_record_is_appended :
  match parse_common_section TestPage.ops TestPage.card_schema "matchup"
          (self_parse_element TestPage.ops) 1 build_counter_fields
          (TestPage.start TestPage.bad_wr_page) with
  | Some (Ok (common_data, _), _) =>
      common_data
      = [(Some "top",
          [None;
           Some [("wr", VStr "49.0"); ("delta_1", VNone); ("delta_2", VNone);
                 ("pr", VNone); ("games", VNone); ("champion", VStr "Brand")]])]
  | _ => False
  end
  /\ match collect_parsed TestPage.ops TestPage.card_schema build_counter_fields
             [TestPage.card_bad_wr; TestPage.card_B] []
             (TestPage.start TestPage.bad_wr_page) with
     | Some (Ok out, _) =>
         out = [[("wr", VStr "49.0"); ("delta_1", VNone); ("delta_2", VNone);
                 ("pr", VNone); ("games", VNone)]]
     | _ => False
     end.
Proof. split; vm_compute; reflexivity. Qed.

(** ** Faults inside parse_element *)



(** ** The change barrier *)


Section Barrier.
Context {Session : Type}.
Variable ops : PageOps Session.





End Barrier.





Lemma lane_loop_terminates_iff_exhausted_witness :
  exists k st' w' c,
    iterations TestPage.ops TestPage.card_schema "matchup"
               (self_parse_element TestPage.ops) (S k)
               [TestPage.container 0] 0 (mkLane ∅ [] build_counter_fields)
               (TestPage.start TestPage.overlap_page) = Some (Ok st', w')
    /\ [TestPage.container 0] !! 0%nat = Some c
    /\ op_scrollLeft TestPage.ops (node_id c) (session w')
       + op_clientWidth TestPage.ops (node_id c) (session w')
       >= op_scrollWidth TestPage.ops (node_id c) (session w') - 5.
Proof.
  apply (proj1 (proj1 (lane_loop_terminates_iff_exhausted
                         TestPage.ops TestPage.card_schema "matchup"
                         (self_parse_element TestPage.ops)
                         [TestPage.container 0] 0
                         (mkLane ∅ [] build_counter_fields)
                         (TestPage.start TestPage.overlap_page)))).
  exists 2%nat. eexists _, _. vm_compute. reflexivity.
Defined.

(** * Further properties *)

(** ** Strings *)

Lemma append_cons (c : ascii) (a b : string) :
  String c a +:+ b = String c (a +:+ b).
Proof. reflexivity. Qed.

Lemma append_assoc (a b c : string) : (a +:+ b) +:+ c = a +:+ (b +:+ c).
Proof.
  induction a as [|x a IH]; [reflexivity|]. now rewrite !append_cons, IH.
Qed.

Lemma py_lower_app (a b : string) : py_lower (a +:+ b) = py_lower a +:+ py_lower b.
Proof.
  induction a as [|x a IH]; [reflexivity|].
  rewrite append_cons. unfold py_lower in *. cbn [str_map].
  now rewrite append_cons, IH.
Qed.

Lemma slash_free_cons (c : ascii) (s : string) :
  slash_free (String c s) <-> is_slash c = false /\ slash_free s.
Proof.
  unfold slash_free; cbn. rewrite andb_true_iff, negb_true_iff. reflexivity.
Qed.

Lemma slash_free_app (a b : string) :
  slash_free (a +:+ b) <-> slash_free a /\ slash_free b.
Proof.
  induction a as [|x a IH].
  - change ("" +:+ b) with b. unfold slash_free at 2; cbn. tauto.
  - rewrite append_cons, !slash_free_cons, IH. tauto.
Qed.

(** *** split *)

Lemma py_split_cons (sep c : ascii) (r : string) :
  py_split sep (String c r)
  = if Ascii.eqb c sep then EmptyString :: py_split sep r
    else match py_split sep r with
         | h :: t => String c h :: t
         | [] => [String c EmptyString]
         end.
Proof. reflexivity. Qed.

Lemma py_split_nonempty (s : string) : py_split "/" s <> [].
Proof.
  destruct s as [|c r]; cbn; [discriminate|].
  destruct (Ascii.eqb c "/"); [discriminate|].
  destruct (py_split "/" r); discriminate.
Qed.

Lemma py_split_slash_free (p : string) :
  slash_free p -> py_split "/" p = [p].
Proof.
  induction p as [|c r IH]; intros H; [reflexivity|].
  apply slash_free_cons in H as [Hc Hr]. cbn.
  unfold is_slash in Hc. rewrite Hc, (IH Hr). reflexivity.
Qed.

Lemma py_split_app_slash (a b : string) :
  slash_free a -> py_split "/" (a +:+ String "/" b) = a :: py_split "/" b.
Proof.
  induction a as [|c r IH]; intros H; [reflexivity|].
  apply slash_free_cons in H as [Hc Hr]. rewrite append_cons, py_split_cons.
  unfold is_slash in Hc. rewrite Hc, (IH Hr). reflexivity.
Qed.

Lemma py_split_parts (s : string) : Forall slash_free (py_split "/" s).
Proof.
  induction s as [|c r IH]; cbn.
  - constructor; [reflexivity | constructor].
  - destruct (Ascii.eqb c "/") eqn:Ec.
    + constructor; [reflexivity | exact IH].
    + destruct (py_split "/" r) as [|h t]; [repeat constructor|].
      * apply slash_free_cons. split; [exact Ec | reflexivity].
      * inversion IH; subst. constructor; [|assumption].
        apply slash_free_cons. split; [exact Ec | assumption].
Qed.

(** There is one part more than there are separators. *)
Lemma py_split_length (s : string) :
  length (py_split "/" s) = S (str_count is_slash s).
Proof.
  induction s as [|c r IH]; [reflexivity|]. cbn. unfold is_slash at 1.
  destruct (Ascii.eqb c "/"); cbn; [now rewrite IH|].
  destruct (py_split "/" r) as [|h t] eqn:E; cbn in *; lia.
Qed.

(** *** rstrip *)

Lemma rstrip_id (ws : ascii -> bool) (s : string) :
  str_forallb (fun c => negb (ws c)) s = true -> rstrip ws s = s.
Proof.
  induction s as [|c r IH]; intros H; [reflexivity|].
  cbn in H. apply andb_prop in H as [Hc Hr]. apply negb_true_iff in Hc.
  cbn. rewrite (IH Hr), Hc. now destruct r.
Qed.

Lemma rstrip_app_fixed (ws : ascii -> bool) (a b : string) :
  rstrip ws b = b -> b <> "" -> rstrip ws (a +:+ b) = a +:+ b.
Proof.
  intros Hb Hne. induction a as [|c a IH]; [exact Hb|].
  rewrite append_cons. cbn [rstrip]. rewrite IH.
  destruct (a +:+ b) eqn:E; [|reflexivity].
  destruct a; [contradiction | discriminate].
Qed.

Lemma rstrip_cons (ws : ascii -> bool) (c : ascii) (r : string) :
  rstrip ws (String c r)
  = match rstrip ws r with
    | EmptyString => if ws c then EmptyString else String c EmptyString
    | String c' r' => String c (String c' r')
    end.
Proof. reflexivity. Qed.

Lemma rstrip_idempotent (ws : ascii -> bool) (s : string) :
  rstrip ws (rstrip ws s) = rstrip ws s.
Proof.
  induction s as [|c r IH]; [reflexivity|]. rewrite (rstrip_cons ws c r).
  destruct (rstrip ws r) as [|c' r'] eqn:E.
  - destruct (ws c) eqn:Ec; [reflexivity|]. cbn. now rewrite Ec.
  - now rewrite rstrip_cons, IH.
Qed.

(** A string that [rstrip('/')] leaves as it is, and that is not empty,
    ends in a part that is not empty. *)
Lemma py_split_last_nonempty (s : string) :
  rstrip is_slash s = s -> s <> "" ->
  exists parts p, py_split "/" s = (parts ++ [p])%list /\ p <> "".
Proof.
  induction s as [|c r IH]; intros Hfix Hne; [contradiction|].
  rewrite rstrip_cons in Hfix.
  destruct (rstrip is_slash r) as [|c' r'] eqn:Er.
  - destruct (is_slash c) eqn:Ec; [discriminate|].
    inversion Hfix; subst r. exists [], (String c ""). cbn.
    unfold is_slash in Ec. rewrite Ec. split; [reflexivity | discriminate].
  - inversion Hfix as [Hr]. subst r.
    destruct IH as (parts & p & Hs & Hp); [first [reflexivity | exact Er] | discriminate |].
    rewrite py_split_cons, Hs. destruct (Ascii.eqb c "/").
    + exists ("" :: parts), p. split; [reflexivity | exact Hp].
    + destruct parts as [|h t]; cbn.
      * exists [], (String c p). split; [reflexivity | discriminate].
      * exists (String c h :: t), p. split; [reflexivity | exact Hp].
Qed.

(** ** OP.GG: URLs *)

Lemma py_last3_short {A} (l : list A) :
  (length l < 3)%nat -> py_last3 l = l.
Proof.
  intros H. unfold py_last3.
  replace (length l - 3)%nat with 0%nat by lia. reflexivity.
Qed.

Lemma py_last3_long {A} (l : list A) :
  (3 <= length l)%nat ->
  exists pre a b c, l = (pre ++ [a; b; c])%list /\ py_last3 l = [a; b; c].
Proof.
  intros H. unfold py_last3.
  pose proof (take_drop (length l - 3) l) as Htd.
  assert (Hlen : length (drop (length l - 3) l) = 3%nat)
    by (rewrite length_drop; lia).
  destruct (drop (length l - 3) l) as [|a [|b [|c [|d t]]]]; try discriminate.
  exists (take (length l - 3) l), a, b, c. split; [now symmetry | reflexivity].
Qed.

Lemma normalize_url_of_parts (url : string) (pre : list string) (p0 p1 p2 : string) :
  py_split "/" (rstrip is_slash url) = (pre ++ [p0; p1; p2])%list ->
  OPGG.normalize_url url
  = Ok ("https://op.gg/en/lol/" +:+ p0 +:+ "/" +:+ p1 +:+ "/" +:+ p2).
Proof.
  intros H. unfold OPGG.normalize_url. rewrite H.
  destruct (py_last3_long (pre ++ [p0; p1; p2])) as (pre' & a & b & c & Hl & ->).
  { rewrite length_app. cbn. lia. }
  assert (Heq : [a; b; c] = [p0; p1; p2]).
  { apply (f_equal (fun l => drop (length l - 3) l)) in Hl.
    rewrite !drop_app_length' in Hl by (rewrite length_app; cbn; lia).
    now symmetry. }
  inversion Heq; subst. reflexivity.
Qed.

Lemma normalize_url_inv (url r : string) :
  OPGG.normalize_url url = Ok r ->
  exists pre p0 p1 p2,
    py_split "/" (rstrip is_slash url) = (pre ++ [p0; p1; p2])%list
    /\ r = "https://op.gg/en/lol/" +:+ p0 +:+ "/" +:+ p1 +:+ "/" +:+ p2.
Proof.
  intros H.
  destruct (Nat.lt_ge_cases (length (py_split "/" (rstrip is_slash url))) 3)
    as [Hlt|Hge].
  - unfold OPGG.normalize_url in H. rewrite (py_last3_short _ Hlt) in H.
    destruct (py_split "/" (rstrip is_slash url)) as [|a [|b [|c t]]];
      cbn in Hlt; try lia; discriminate.
  - destruct (py_last3_long _ Hge) as (pre & a & b & c & Hl & _).
    exists pre, a, b, c. split; [exact Hl|].
    rewrite (normalize_url_of_parts _ _ _ _ _ Hl) in H. now inversion H.
Qed.

Lemma rstrip_app_fixed_ne (ws : ascii -> bool) (a b : string) :
  rstrip ws b = b -> b <> "" ->
  rstrip ws (a +:+ b) = a +:+ b /\ a +:+ b <> "".
Proof.
  intros Hb Hne. split; [now apply rstrip_app_fixed|].
  destruct a; [exact Hne | discriminate].
Qed.

Lemma py_split_opgg_prefix (x : string) :
  py_split "/" ("https://op.gg/en/lol/" +:+ x)
  = (["https:"; ""; "op.gg"; "en"; "lol"] ++ py_split "/" x)%list.
Proof.
  change ("https://op.gg/en/lol/" +:+ x)
    with ("https:" +:+ String "/" ("" +:+ String "/" ("op.gg" +:+ String "/"
            ("en" +:+ String "/" ("lol" +:+ String "/" x))))).
  now rewrite !py_split_app_slash by reflexivity.
Qed.

Lemma py_split_three (p0 p1 p2 : string) :
  slash_free p0 -> slash_free p1 -> slash_free p2 ->
  py_split "/" (p0 +:+ "/" +:+ p1 +:+ "/" +:+ p2) = [p0; p1; p2].
Proof.
  intros H0 H1 H2.
  change (p0 +:+ "/" +:+ p1 +:+ "/" +:+ p2)
    with (p0 +:+ String "/" (p1 +:+ String "/" p2)).
  now rewrite !py_split_app_slash, py_split_slash_free.
Qed.

(** The three parts a normalized URL is made of: none holds a '/', and the
    last one is not empty. *)
Lemma normalize_url_parts (url r : string) :
  OPGG.normalize_url url = Ok r ->
  exists p0 p1 p2,
    r = "https://op.gg/en/lol/" +:+ p0 +:+ "/" +:+ p1 +:+ "/" +:+ p2
    /\ slash_free p0 /\ slash_free p1 /\ slash_free p2 /\ p2 <> ""
    /\ last (py_split "/" (rstrip is_slash url)) = Some p2.
Proof.
  intros H. destruct (normalize_url_inv _ _ H) as (pre & p0 & p1 & p2 & Hs & ->).
  pose proof (py_split_parts (rstrip is_slash url)) as Hall.
  rewrite Hs in Hall. apply Forall_app in Hall as [_ Hall].
  inversion Hall as [|? ? H0 Hall1]; subst.
  inversion Hall1 as [|? ? H1 Hall2]; subst.
  inversion Hall2 as [|? ? H2 _]; subst.
  exists p0, p1, p2. repeat (split; [assumption || reflexivity|]).
  assert (Hlast : last (py_split "/" (rstrip is_slash url)) = Some p2).
  { rewrite Hs. change [p0; p1; p2] with ([p0; p1] ++ [p2])%list.
    now rewrite app_assoc, last_snoc. }
  split; [|exact Hlast].
  destruct (rstrip is_slash url) as [|c s] eqn:Eu.
  - destruct pre as [|? [|? ?]]; discriminate.
  - destruct (py_split_last_nonempty (String c s)) as (parts & p & Hp & Hne).
    + rewrite <- Eu. apply rstrip_idempotent.
    + discriminate.
    + rewrite Hp, last_snoc in Hlast. now inversion Hlast; subst.
Qed.

(** A URL normalize_url returns is one it leaves as it is. *)
Lemma normalize_url_fixed (url r : string) :
  OPGG.normalize_url url = Ok r -> OPGG.normalize_url r = Ok r.
Proof.
  intros H.
  destruct (normalize_url_parts _ _ H)
    as (p0 & p1 & p2 & -> & H0 & H1 & H2 & Hne & _).
  apply (normalize_url_of_parts _ ["https:"; ""; "op.gg"; "en"; "lol"]).
  assert (Hfix : rstrip is_slash ("https://op.gg/en/lol/" +:+ p0 +:+ "/" +:+ p1
                                  +:+ "/" +:+ p2)
                 = "https://op.gg/en/lol/" +:+ p0 +:+ "/" +:+ p1 +:+ "/" +:+ p2).
  { pose proof (rstrip_id is_slash p2 H2) as Hp2.
    destruct (rstrip_app_fixed_ne is_slash "/" _ Hp2 Hne) as [Ha Hna].
    destruct (rstrip_app_fixed_ne is_slash p1 _ Ha Hna) as [Hb Hnb].
    destruct (rstrip_app_fixed_ne is_slash "/" _ Hb Hnb) as [Hc Hnc].
    destruct (rstrip_app_fixed_ne is_slash p0 _ Hc Hnc) as [Hd Hnd].
    now apply rstrip_app_fixed. }
  rewrite Hfix, py_split_opgg_prefix, py_split_three by assumption. reflexivity.
Qed.

(** X1.  Normalizing a normalized URL changes nothing. *)
Theorem opgg_normalize_url_idempotent (url r : string) :
  OPGG.normalize_url url = Ok r -> OPGG.normalize_url r = Ok r.
Proof. apply normalize_url_fixed. Qed.

Lemma opgg_normalize_url_idempotent_witness :
  OPGG.normalize_url "https://op.gg/en/lol/summoners/euw/Name-Tag"
  = Ok "https://op.gg/en/lol/summoners/euw/Name-Tag".
Proof.
  apply (opgg_normalize_url_idempotent "www.op.gg/summoners/euw/Name-Tag//").
  reflexivity.
Defined.

(** X2.  normalize_url raises IndexError exactly on the URLs that, trailing
    slashes removed, have fewer than two '/'; on every other URL it returns
    a URL that starts with https://op.gg/en/lol/ and that is_valid_url
    accepts, whatever the site of the URL it was given. *)
Theorem opgg_normalize_url_bounds (url : string) :
  ((str_count is_slash (rstrip is_slash url) < 2)%nat ->
   OPGG.normalize_url url = Raise IndexError)
  /\ ((2 <= str_count is_slash (rstrip is_slash url))%nat ->
      exists r, OPGG.normalize_url url = Ok r
                /\ py_startswith r "https://op.gg/en/lol/" = true
                /\ OPGG.is_valid_url r = true).
Proof.
  pose proof (py_split_length (rstrip is_slash url)) as Hlen.
  split; intros H.
  - unfold OPGG.normalize_url. rewrite py_last3_short by lia.
    destruct (py_split "/" (rstrip is_slash url)) as [|a [|b [|c t]]];
      cbn in Hlen; try lia; reflexivity.
  - destruct (py_last3_long (py_split "/" (rstrip is_slash url)))
      as (pre & p0 & p1 & p2 & Hs & _); [lia|].
    eexists. split; [exact (normalize_url_of_parts _ _ _ _ _ Hs)|].
    split; [vm_compute; reflexivity|].
    unfold OPGG.is_valid_url. rewrite py_lower_app. vm_compute. reflexivity.
Qed.

Lemma opgg_normalize_url_bounds_witness :
  OPGG.normalize_url "op.gg/Name" = Raise IndexError
  /\ exists r, OPGG.normalize_url "http://elsewhere.example/a/b" = Ok r
               /\ OPGG.is_valid_url r = true.
Proof.
  split.
  - apply (proj1 (opgg_normalize_url_bounds "op.gg/Name")). cbn. lia.
  - destruct (proj2 (opgg_normalize_url_bounds "http://elsewhere.example/a/b"))
      as (r & Hr & _ & Hv); [cbn; lia|].
    exists r. split; assumption.
Defined.

Lemma py_startswith_app (p b : string) : py_startswith (p +:+ b) p = true.
Proof.
  induction p as [|c p IH]; [reflexivity|].
  rewrite append_cons. cbn. now rewrite Ascii.eqb_refl, IH.
Qed.

Lemma py_contains_app (sub a b : string) :
  py_contains sub (a +:+ sub +:+ b) = true.
Proof.
  induction a as [|c a IH].
  - change ("" +:+ sub +:+ b) with (sub +:+ b).
    destruct (sub +:+ b) eqn:E; cbn; rewrite <- E, py_startswith_app; reflexivity.
  - rewrite append_cons. cbn. rewrite IH. apply orb_true_r.
Qed.

Lemma py_startswith_inv (s p : string) :
  py_startswith s p = true -> exists b, s = p +:+ b.
Proof.
  revert s. induction p as [|c p IH]; intros s H; [exists s; reflexivity|].
  destruct s as [|d s]; [discriminate|]. cbn in H.
  apply andb_prop in H as [Hc Hp]. apply Ascii.eqb_eq in Hc. subst d.
  destruct (IH _ Hp) as [b ->]. exists b. reflexivity.
Qed.

Lemma py_contains_inv (sub s : string) :
  py_contains sub s = true -> exists a b, s = a +:+ sub +:+ b.
Proof.
  induction s as [|c s IH]; cbn; intros H.
  - rewrite orb_false_r in H. destruct (py_startswith_inv _ _ H) as [b ->].
    exists "", b. reflexivity.
  - apply orb_prop in H as [H|H].
    + destruct (py_startswith_inv _ _ H) as [b ->]. exists "", b. reflexivity.
    + destruct (IH H) as (a & b & ->). exists (String c a), b. reflexivity.
Qed.

(** *** The champions URLs *)

Lemma py_endswith_unfold (s p : string) :
  py_endswith s p
  = (String.eqb s p
     || match s with
        | EmptyString => false
        | String _ r => py_endswith r p
        end)%bool.
Proof. destruct s; reflexivity. Qed.

Lemma py_endswith_app (a s : string) : py_endswith (a +:+ s) s = true.
Proof.
  induction a as [|c a IH].
  - change ("" +:+ s) with s. now rewrite py_endswith_unfold, String.eqb_refl.
  - rewrite append_cons, py_endswith_unfold, IH. apply orb_true_r.
Qed.

Lemma py_endswith_slash_free (p q : string) :
  slash_free p -> py_endswith p (String "/" q) = false.
Proof.
  induction p as [|c p IH]; intros H; [reflexivity|].
  apply slash_free_cons in H as [Hc Hp].
  rewrite py_endswith_unfold, (IH Hp), orb_false_r.
  apply String.eqb_neq. intros He. inversion He; subst c. discriminate.
Qed.

Lemma py_endswith_segment (a p q : string) :
  slash_free p -> slash_free q ->
  py_endswith (a +:+ String "/" p) (String "/" q) = true -> p = q.
Proof.
  intros Hp Hq. induction a as [|c a IH]; intros H.
  - change ("" +:+ String "/" p) with (String "/" p) in H.
    rewrite py_endswith_unfold in H. apply orb_prop in H as [H|H].
    + apply String.eqb_eq in H. now inversion H.
    + now rewrite py_endswith_slash_free in H.
  - rewrite append_cons, py_endswith_unfold in H.
    apply orb_prop in H as [H|H]; [|now apply IH].
    apply String.eqb_eq in H. inversion H; subst.
    apply slash_free_app in Hq as [_ Hq]. discriminate.
Qed.

Section ChampionsUrl.
Variable q : string.
Hypothesis Hq : slash_free q.
Hypothesis Hqne : q <> "".

Abbreviation champions_url' := (champions_url q).

Lemma champions_url_ends (url base : string) :
  OPGG.normalize_url url = Ok base ->
  exists r, champions_url' url = Ok r /\ py_endswith r (String "/" q) = true.
Proof.
  intros H. unfold champions_url. rewrite H. cbn.
  destruct (py_endswith base (String "/" q)) eqn:E; cbn.
  - eauto.
  - eexists. split; [reflexivity | apply py_endswith_app].
Qed.

Lemma champions_url_appends (url base : string) :
  OPGG.normalize_url url = Ok base ->
  last (py_split "/" (rstrip is_slash url)) <> Some q ->
  champions_url' url = Ok (base +:+ String "/" q)
  /\ champions_url' base = Ok (base +:+ String "/" q).
Proof.
  intros H Hlast.
  assert (E : py_endswith base (String "/" q) = false).
  { destruct (normalize_url_parts _ _ H)
      as (p0 & p1 & p2 & -> & _ & _ & H2 & _ & Hl).
    apply not_true_is_false. intros He.
    change ("https://op.gg/en/lol/" +:+ p0 +:+ "/" +:+ p1 +:+ "/" +:+ p2)
      with ("https://op.gg/en/lol/" +:+ (p0 +:+ (String "/" (p1 +:+ String "/" p2))))
      in He.
    rewrite <- !append_assoc in He.
    change (String "/" (p1 +:+ String "/" p2)) with ("/" +:+ (p1 +:+ String "/" p2)) in He.
    rewrite <- !append_assoc in He.
    apply py_endswith_segment in He; [|assumption..].
    apply Hlast. now rewrite Hl, He. }
  unfold champions_url.
  rewrite (normalize_url_fixed _ _ H), H. cbn. rewrite E. cbn. auto.
Qed.

(** Given a URL that already ends in the query, the function keeps the
    last three parts of it: the query and the two parts before it. *)
Lemma champions_url_shifts (p0 p1 p2 : string) :
  slash_free p0 -> slash_free p1 -> slash_free p2 ->
  champions_url'
    (("https://op.gg/en/lol/" +:+ p0 +:+ "/" +:+ p1 +:+ "/" +:+ p2) +:+ String "/" q)
  = Ok ("https://op.gg/en/lol/" +:+ p1 +:+ "/" +:+ p2 +:+ String "/" q).
Proof.
  intros H0 H1 H2.
  assert (Hn : OPGG.normalize_url
                 (("https://op.gg/en/lol/" +:+ p0 +:+ "/" +:+ p1 +:+ "/" +:+ p2)
                  +:+ String "/" q)
               = Ok ("https://op.gg/en/lol/" +:+ p1 +:+ "/" +:+ p2 +:+ "/" +:+ q)).
  { apply (normalize_url_of_parts _ ["https:"; ""; "op.gg"; "en"; "lol"; p0]).
    rewrite rstrip_app_fixed.
    - rewrite !append_assoc. rewrite py_split_opgg_prefix.
      change ("/" +:+ p1 +:+ "/" +:+ p2 +:+ String "/" q)
        with (String "/" (p1 +:+ String "/" (p2 +:+ String "/" q))).
      rewrite !py_split_app_slash, py_split_slash_free by assumption. reflexivity.
    - change (String "/" q) with ("/" +:+ q).
      apply rstrip_app_fixed; [now apply rstrip_id | exact Hqne].
    - discriminate. }
  unfold champions_url. rewrite Hn. cbn.
  change ("https://op.gg/en/lol/" +:+ p1 +:+ "/" +:+ p2 +:+ "/" +:+ q)
    with ("https://op.gg/en/lol/" +:+ (p1 +:+ ("/" +:+ (p2 +:+ String "/" q)))).
  rewrite <- !append_assoc. rewrite py_endswith_app. reflexivity.
Qed.

End ChampionsUrl.

Lemma champions_solo_eq (url : string) :
  OPGG.normalize_url_champions_solo url
  = champions_url "champions?queue_type=SOLORANKED" url.
Proof. reflexivity. Qed.

Lemma champions_flex_eq (url : string) :
  OPGG.normalize_url_champions_flex url
  = champions_url "champions?queue_type=FLEXRANKED" url.
Proof. reflexivity. Qed.

(** X4.  Where normalize_url returns [base], the two champions functions
    return a URL that ends in their query; and unless the last part of the
    URL is that very query, the URL they return is [base] with the query
    appended, for the URL itself and for [base] (which is what
    parse_player_stats passes). *)
Theorem opgg_champions_url_appends (url base : string) :
  OPGG.normalize_url url = Ok base ->
  (exists r, OPGG.normalize_url_champions_solo url = Ok r
             /\ py_endswith r OPGG.solo_suffix = true)
  /\ (exists r, OPGG.normalize_url_champions_flex url = Ok r
                /\ py_endswith r OPGG.flex_suffix = true)
  /\ (last (py_split "/" (rstrip is_slash url))
      <> Some "champions?queue_type=SOLORANKED" ->
      OPGG.normalize_url_champions_solo url = Ok (base +:+ OPGG.solo_suffix)
      /\ OPGG.normalize_url_champions_solo base = Ok (base +:+ OPGG.solo_suffix))
  /\ (last (py_split "/" (rstrip is_slash url))
      <> Some "champions?queue_type=FLEXRANKED" ->
      OPGG.normalize_url_champions_flex url = Ok (base +:+ OPGG.flex_suffix)
      /\ OPGG.normalize_url_champions_flex base = Ok (base +:+ OPGG.flex_suffix)).
Proof.
  intros H. rewrite !champions_solo_eq, !champions_flex_eq.
  split; [|split; [|split]].
  - exact (champions_url_ends _ url base H).
  - exact (champions_url_ends _ url base H).
  - apply champions_url_appends; [reflexivity | exact H].
  - apply champions_url_appends; [reflexivity | exact H].
Qed.

Lemma opgg_champions_url_appends_witness :
  OPGG.normalize_url_champions_solo "https://www.op.gg/summoners/euw/Name-Tag/"
  = Ok "https://op.gg/en/lol/summoners/euw/Name-Tag/champions?queue_type=SOLORANKED".
Proof.
  apply (proj1 (proj1 (proj2 (proj2
           (opgg_champions_url_appends
              "https://www.op.gg/summoners/euw/Name-Tag/"
              "https://op.gg/en/lol/summoners/euw/Name-Tag" eq_refl)))
           ltac:(discriminate))).
Defined.

(** X5.  Given a URL they returned, the champions functions do not give it
    back: they keep its last three parts, so the first of the three parts of
    the normalized URL (the region) is lost. *)
Theorem opgg_champions_url_shifts (url base : string) :
  OPGG.normalize_url url = Ok base ->
  exists p0 p1 p2,
    base = "https://op.gg/en/lol/" +:+ p0 +:+ "/" +:+ p1 +:+ "/" +:+ p2
    /\ OPGG.normalize_url_champions_solo (base +:+ OPGG.solo_suffix)
       = Ok ("https://op.gg/en/lol/" +:+ p1 +:+ "/" +:+ p2 +:+ OPGG.solo_suffix)
    /\ OPGG.normalize_url_champions_flex (base +:+ OPGG.flex_suffix)
       = Ok ("https://op.gg/en/lol/" +:+ p1 +:+ "/" +:+ p2 +:+ OPGG.flex_suffix).
Proof.
  intros H.
  destruct (normalize_url_parts _ _ H)
    as (p0 & p1 & p2 & -> & H0 & H1 & H2 & _ & _).
  exists p0, p1, p2. split; [reflexivity|].
  rewrite champions_solo_eq, champions_flex_eq. split.
  - now apply champions_url_shifts; try discriminate.
  - now apply champions_url_shifts; try discriminate.
Qed.

Lemma opgg_champions_url_shifts_witness :
  exists p0 p1 p2,
    "https://op.gg/en/lol/euw/summoners/Name"
    = "https://op.gg/en/lol/" +:+ p0 +:+ "/" +:+ p1 +:+ "/" +:+ p2
    /\ OPGG.normalize_url_champions_solo
         ("https://op.gg/en/lol/euw/summoners/Name" +:+ OPGG.solo_suffix)
       = Ok ("https://op.gg/en/lol/" +:+ p1 +:+ "/" +:+ p2 +:+ OPGG.solo_suffix).
Proof.
  destruct (opgg_champions_url_shifts "op.gg/euw/summoners/Name"
              "https://op.gg/en/lol/euw/summoners/Name" eq_refl)
    as (p0 & p1 & p2 & Hb & Hs & _).
  exists p0, p1, p2. split; assumption.
Defined.

(** ** OP.GG: previous seasons and wins/losses *)

Section PreviousSeasons.
Context {Season : Type}.
Variable SeasonStats : option string -> option string -> option string -> result Season.
Variables ranks lps : list (option string).

Lemma previous_seasons_from_unfold (i : nat) (season : option string)
    (rest : list (option string)) (acc : list Season) :
  OPGG.previous_seasons_from SeasonStats ranks lps i (season :: rest) acc
  = match SeasonStats season (index_or (Some "") ranks i) (index_or None lps i) with
    | Ok s => OPGG.previous_seasons_from SeasonStats ranks lps (S i) rest
                (acc ++ [s])%list
    | Raise e => Raise e
    end.
Proof.
  cbn [OPGG.previous_seasons_from].
  assert (Hr : (if Nat.ltb i (length ranks)
                then default None (ranks !! i) else Some "")
               = index_or (Some "") ranks i).
  { unfold index_or. destruct (Nat.ltb_spec i (length ranks)) as [Hlt|Hge].
    - destruct (lookup_lt_is_Some_2 _ _ Hlt) as [x ->]. reflexivity.
    - now rewrite (lookup_ge_None_2 _ _ Hge). }
  assert (Hl : (if Nat.ltb i (length lps)
                then default None (lps !! i) else None)
               = index_or None lps i).
  { unfold index_or. destruct (Nat.ltb_spec i (length lps)) as [Hlt|Hge].
    - destruct (lookup_lt_is_Some_2 _ _ Hlt) as [x ->]. reflexivity.
    - now rewrite (lookup_ge_None_2 _ _ Hge). }
  rewrite Hr, Hl. reflexivity.
Qed.

(** The rows of the call are accepted: the list is returned. *)
Lemma previous_seasons_from_spec (seasons : list (option string)) :
  forall i acc,
  (forall j season, seasons !! j = Some season ->
     exists s, SeasonStats season (index_or (Some "") ranks (i + j))
                           (index_or None lps (i + j)) = Ok s) ->
  exists out,
    OPGG.previous_seasons_from SeasonStats ranks lps i seasons acc
    = Ok (acc ++ out)%list
    /\ length out = length seasons
    /\ forall j season, seasons !! j = Some season ->
         exists s, out !! j = Some s
                   /\ SeasonStats season (index_or (Some "") ranks (i + j))
                                  (index_or None lps (i + j)) = Ok s.
Proof.
  induction seasons as [|season rest IH]; intros i acc Hrows.
  - exists []. rewrite app_nil_r. split; [reflexivity|]. split; [reflexivity|].
    intros j season Hj. discriminate.
  - rewrite previous_seasons_from_unfold.
    destruct (Hrows 0%nat season eq_refl) as [s Hs].
    rewrite Nat.add_0_r in Hs. rewrite Hs.
    destruct (IH (S i) (acc ++ [s])%list) as (out & Ho & Hlen & Hall).
    { intros j season' Hj. destruct (Hrows (S j) season' Hj) as [s' Hs'].
      exists s'. now replace (S i + j)%nat with (i + S j)%nat by lia. }
    exists (s :: out). rewrite Ho, <- app_assoc. split; [reflexivity|].
    split; [cbn; now rewrite Hlen|].
    intros [|j] season' Hj; cbn in Hj.
    + inversion Hj; subst. exists s. rewrite Nat.add_0_r. split; [reflexivity | exact Hs].
    + destruct (Hall j season' Hj) as (s' & Hs' & Hc).
      exists s'. split; [exact Hs'|].
      now replace (i + S j)%nat with (S i + j)%nat by lia.
Qed.

(** The first row that is rejected ends the call with its exception. *)
Lemma previous_seasons_from_rejected (seasons : list (option string)) :
  forall i acc j season e,
    seasons !! j = Some season ->
    SeasonStats season (index_or (Some "") ranks (i + j))
                (index_or None lps (i + j)) = Raise e ->
    (forall j' season', (j' < j)%nat -> seasons !! j' = Some season' ->
       exists s, SeasonStats season' (index_or (Some "") ranks (i + j'))
                             (index_or None lps (i + j')) = Ok s) ->
    OPGG.previous_seasons_from SeasonStats ranks lps i seasons acc = Raise e.
Proof.
  induction seasons as [|season0 rest IH]; intros i acc j season e Hj He Hbefore;
    [discriminate|].
  rewrite previous_seasons_from_unfold. destruct j as [|j]; cbn in Hj.
  - inversion Hj; subst. rewrite Nat.add_0_r in He. now rewrite He.
  - destruct (Hbefore 0%nat season0 (Nat.lt_0_succ j) eq_refl) as [s Hs].
    rewrite Nat.add_0_r in Hs. rewrite Hs.
    apply (IH (S i) _ j season e Hj).
    + now replace (S i + j)%nat with (i + S j)%nat by lia.
    + intros j' season' Hlt Hj'.
      destruct (Hbefore (S j') season' (proj1 (Nat.succ_lt_mono j' j) Hlt) Hj')
        as [s' Hs'].
      exists s'. now replace (S i + j')%nat with (i + S j')%nat by lia.
Qed.

End PreviousSeasons.

(** X6.  _parse_previous_seasons raises no IndexError when the ranks or the
    points are fewer than the seasons: row [j] is built from season [j],
    from rank [j] or the empty string when there is none, and from points
    [j] or None when there are none.  Where the record class accepts the
    rows of the call, the function returns one record per season, in order;
    where it rejects one, the function raises the exception of the first
    row rejected and returns no list. *)
Theorem opgg_previous_seasons_padded {Season : Type}
    (SeasonStats : option string -> option string -> option string -> result Season)
    (seasons ranks lps : list (option string)) :
  ((forall j season, seasons !! j = Some season ->
      exists s, SeasonStats season (index_or (Some "") ranks j)
                            (index_or None lps j) = Ok s) ->
   exists out,
     OPGG._parse_previous_seasons SeasonStats seasons ranks lps = Ok out
     /\ length out = length seasons
     /\ forall j season, seasons !! j = Some season ->
          exists s, out !! j = Some s
                    /\ SeasonStats season (index_or (Some "") ranks j)
                                   (index_or None lps j) = Ok s)
  /\ (forall j season e,
        seasons !! j = Some season ->
        SeasonStats season (index_or (Some "") ranks j) (index_or None lps j)
        = Raise e ->
        (forall j' season', (j' < j)%nat -> seasons !! j' = Some season' ->
           exists s, SeasonStats season' (index_or (Some "") ranks j')
                                 (index_or None lps j') = Ok s) ->
        OPGG._parse_previous_seasons SeasonStats seasons ranks lps = Raise e).
Proof.
  split.
  - intros Hrows.
    destruct (previous_seasons_from_spec SeasonStats ranks lps seasons 0 [] Hrows)
      as (out & Ho & Hlen & Hall).
    exists out. split; [exact Ho|]. split; [exact Hlen|]. exact Hall.
  - intros j season e Hj He Hbefore.
    exact (previous_seasons_from_rejected SeasonStats ranks lps seasons 0 []
             j season e Hj He Hbefore).
Qed.

Lemma opgg_previous_seasons_padded_witness :
  (exists out,
      OPGG._parse_previous_seasons OPGG.season_with_int_lp
        [Some "S2023"; Some "S2022"] [Some "Gold 1"] [Some "75"] = Ok out
      /\ out = [(Some "S2023", Some "Gold 1", Some 75);
                (Some "S2022", Some "", None)])
  /\ OPGG._parse_previous_seasons OPGG.season_with_int_lp
       [Some "S2023"; Some "S2022"] [Some "Gold 1"] [Some "75"; Some "75 LP"]
     = Raise ValueError.
Proof.
  split.
  - destruct (proj1 (opgg_previous_seasons_padded OPGG.season_with_int_lp
                       [Some "S2023"; Some "S2022"] [Some "Gold 1"] [Some "75"]))
      as (out & Ho & _).
    + intros [|[|j]] season Hj; cbn in Hj; inversion Hj; subst;
        eexists; vm_compute; reflexivity.
    + exists out. split; [exact Ho|].
      vm_compute in Ho. now inversion Ho.
  - apply (proj2 (opgg_previous_seasons_padded OPGG.season_with_int_lp
                    [Some "S2023"; Some "S2022"] [Some "Gold 1"]
                    [Some "75"; Some "75 LP"])
             1%nat (Some "S2022")).
    + reflexivity.
    + vm_compute. reflexivity.
    + intros [|j'] season' Hlt Hj'; [|lia].
      cbn in Hj'. inversion Hj'; subst. eexists. vm_compute. reflexivity.
Defined.

(** X7.  On a list of three elements or more, _parse_win_loss reads the
    first and the third and nothing else; it returns both numbers when both
    strings convert (an empty string giving None), and (None, None) as soon
    as one of them does not. *)
Theorem opgg_parse_win_loss_long (a b c : string) (rest : list string) :
  _parse_win_loss (a :: b :: c :: rest)
  = match int_or_none a, int_or_none c with
    | Ok wins, Ok losses => Ok (wins, losses)
    | _, _ => Ok (None, None)
    end.
Proof.
  unfold _parse_win_loss, int_or_none, py_index. cbn.
  destruct (str_truthy a), (str_truthy c); cbn;
    try destruct (py_int_raises_ValueError a) as [[n ->]| ->];
    try destruct (py_int_raises_ValueError c) as [[m ->]| ->];
    reflexivity.
Qed.

(** ** DeepLOL *)

(** X8.  DeepLOL's normalize_url returns a URL that starts with https://,
    and, as second URL, that URL followed by /champions.  Normalizing the
    first URL again gives the same pair, unless the URL given was empty or
    made of slashes only: the function then returns "https://", which it
    normalizes to "https://https:". *)
Theorem deeplol_normalize_url_idempotent (url : string) :
  py_startswith (fst (DeepLOL.normalize_url url)) "https://" = true
  /\ snd (DeepLOL.normalize_url url)
     = fst (DeepLOL.normalize_url url) +:+ "/champions"
  /\ (rstrip is_slash url <> "" ->
      DeepLOL.normalize_url (fst (DeepLOL.normalize_url url))
      = DeepLOL.normalize_url url)
  /\ (rstrip is_slash url = "" ->
      DeepLOL.normalize_url url = ("https://", "https:///champions")
      /\ fst (DeepLOL.normalize_url (fst (DeepLOL.normalize_url url)))
         = "https://https:").
Proof.
  unfold DeepLOL.normalize_url.
  destruct (py_startswith (rstrip is_slash url) "https://") eqn:E; cbn [negb fst snd].
  - split; [exact E|]. split; [reflexivity|]. split.
    + intros _. now rewrite rstrip_idempotent, E.
    + intros H. rewrite H in E. discriminate.
  - split; [apply py_startswith_app|]. split; [reflexivity|]. split.
    + intros Hne. rewrite rstrip_app_fixed; [|apply rstrip_idempotent | exact Hne].
      now rewrite py_startswith_app.
    + intros ->. split; reflexivity.
Qed.

Lemma deeplol_normalize_url_idempotent_witness :
  DeepLOL.normalize_url (fst (DeepLOL.normalize_url "www.deeplol.gg/summoner/euw/x//"))
  = DeepLOL.normalize_url "www.deeplol.gg/summoner/euw/x//".
Proof.
  apply (proj1 (proj2 (proj2
           (deeplol_normalize_url_idempotent "www.deeplol.gg/summoner/euw/x//")))).
  discriminate.
Defined.

Lemma int_without_last_raises (s : string) :
  (exists n, DeepLOL.int_without_last s = Ok n)
  \/ DeepLOL.int_without_last s = Raise ValueError.
Proof. apply py_int_raises_ValueError. Qed.

Lemma unpack_wins_losses_cases (tokens : list string) :
  match DeepLOL.unpack_wins_losses tokens with
  | Ok (wins, losses) =>
      exists t1 t2, tokens = [t1; t2]
                    /\ DeepLOL.int_without_last t1 = Ok wins
                    /\ DeepLOL.int_without_last t2 = Ok losses
  | Raise e =>
      e = ValueError
      /\ ~ exists t1 t2 wins losses,
             tokens = [t1; t2]
             /\ DeepLOL.int_without_last t1 = Ok wins
             /\ DeepLOL.int_without_last t2 = Ok losses
  end.
Proof.
  destruct tokens as [|t1 [|t2 [|t3 rest]]]; cbn.
  - split; [reflexivity|]. intros (? & ? & ? & ? & H & _). discriminate.
  - destruct (int_without_last_raises t1) as [[n ->]| ->]; cbn;
      (split; [reflexivity|]); intros (? & ? & ? & ? & H & _); discriminate.
  - destruct (int_without_last_raises t1) as [[n E1]| E1]; rewrite E1; cbn.
    + destruct (int_without_last_raises t2) as [[m E2]| E2]; rewrite E2; cbn.
      * exists t1, t2. auto.
      * split; [reflexivity|]. intros (? & ? & ? & ? & H & _ & H2).
        inversion H; subst. congruence.
    + split; [reflexivity|]. intros (? & ? & ? & ? & H & H1 & _).
      inversion H; subst. congruence.
  - destruct (int_without_last_raises t1) as [[n ->]| ->]; cbn;
      [destruct (int_without_last_raises t2) as [[m ->]| ->]; cbn;
       [destruct (int_without_last_raises t3) as [[k ->]| ->]; cbn|]|];
      (split; [reflexivity|]); intros (? & ? & ? & ? & H & _); discriminate.
Qed.

(** X9.  parse_wins_losses raises nothing, and returns either both numbers
    or (None, None), never one number alone.  It returns the numbers [a]
    and [b] exactly when the text has two words and each word, its last
    character dropped (whatever that character is), converts to an
    integer. *)
Theorem deeplol_parse_wins_losses_spec
    (page_query : string -> result (option ElementHandle)) (selector : string) :
  exists wins losses,
    fst (DeepLOL.parse_wins_losses page_query selector) = Ok (wins, losses)
    /\ (wins = None <-> losses = None)
    /\ forall a b,
         (wins = Some a /\ losses = Some b)
         <-> exists t1 t2,
               py_split_ws (wl_text page_query selector) = [t1; t2]
               /\ py_int (py_drop_last t1) = Ok a
               /\ py_int (py_drop_last t2) = Ok b.
Proof.
  unfold DeepLOL.parse_wins_losses, wl_text.
  destruct (extract_text page_query selector None) as [extracted logs].
  cbn [fst].
  assert (Ht : py_strip (match extracted with
                         | Some t => if str_truthy t then t else ""
                         | None => ""
                         end)
               = py_strip (default "" extracted)).
  { destruct extracted as [[|c t]|]; reflexivity. }
  rewrite Ht. set (text := py_strip (default "" extracted)).
  destruct (str_truthy text) eqn:Etext; cbn [negb].
  - pose proof (unpack_wins_losses_cases (py_split_ws text)) as Hc.
    destruct (DeepLOL.unpack_wins_losses (py_split_ws text)) as [[w l]|e]; cbn.
    + destruct Hc as (t1 & t2 & Htok & H1 & H2).
      exists (Some w), (Some l). split; [reflexivity|].
      split; [split; discriminate|].
      intros a b. split.
      * intros [Ha Hb]. inversion Ha; inversion Hb; subst. exists t1, t2. auto.
      * intros (u1 & u2 & Hu & Hu1 & Hu2). rewrite Htok in Hu.
        inversion Hu; subst. unfold DeepLOL.int_without_last in *.
        split; congruence.
    + destruct Hc as [-> Hno]. cbn.
      exists None, None. split; [reflexivity|]. split; [tauto|].
      intros a b. split; [intros [H _]; discriminate|].
      intros (t1 & t2 & Htok & H1 & H2). exfalso. apply Hno.
      exists t1, t2, a, b. auto.
  - exists None, None. split; [reflexivity|]. split; [tauto|].
    intros a b. split; [intros [H _]; discriminate|].
    intros (t1 & t2 & Htok & _). destruct text; [discriminate | discriminate].
Qed.

(** ** Calls on the page *)

Section Framing.
Context {Session : Type}.
Variable ops : PageOps Session.

Lemma extends_by_refl (w : World Session) : extends_by w w [].
Proof.
  split; [now rewrite app_nil_r|]. split; [apply not_elem_of_nil | auto].
Qed.

Lemma extends_by_trans (w1 w2 w3 : World Session) (m1 m2 : list PageCall) :
  extends_by w1 w2 m1 -> extends_by w2 w3 m2 -> extends_by w1 w3 (m1 ++ m2).
Proof.
  intros (Hc1 & Hn1 & Hp1) (Hc2 & Hn2 & Hp2). split; [|split].
  - now rewrite Hc2, Hc1, app_assoc.
  - rewrite elem_of_app. tauto.
  - auto.
Qed.

Lemma extends_by_with_logs (w : World Session) (logs : list LogRecord) :
  extends_by w (with_logs w logs) [].
Proof.
  split; [cbn; now rewrite app_nil_r|]. split; [apply not_elem_of_nil | auto].
Qed.

Lemma framed_ret {A} (a : A) : framed (mret (Session := Session) a).
Proof. intros w out w' H. inversion H; subst. eexists. apply extends_by_refl. Qed.

Lemma framed_of_result {A} (r : result A) : framed (of_result (Session := Session) r).
Proof. intros w out w' H. inversion H; subst. eexists. apply extends_by_refl. Qed.

Lemma framed_get_session : framed (get_session (Session := Session)).
Proof. intros w out w' H. inversion H; subst. eexists. apply extends_by_refl. Qed.

Lemma framed_logging (lvl : level) (msg : string) :
  framed (logging (Session := Session) lvl msg).
Proof.
  intros w out w' H. inversion H; subst. exists [].
  apply (extends_by_with_logs w [(lvl, msg)]).
Qed.

Lemma framed_emit_logs (logs : list LogRecord) :
  framed (emit_logs (Session := Session) logs).
Proof.
  intros w out w' H. inversion H; subst. exists [].
  apply (extends_by_with_logs w logs).
Qed.

Lemma framed_page_do (c : PageCall) (f : Session -> result unit * Session) :
  c <> CallClose -> framed (page_do c f).
Proof.
  intros Hc w out w' H. unfold page_do in H.
  destruct (f (session w)) as [r s]. inversion H; subst. exists [c].
  split; [reflexivity|]. split; [|auto].
  intros Hin. apply list_elem_of_singleton in Hin. congruence.
Qed.

Lemma framed_page_read {A} (c : PageCall) (f : Session -> A) :
  c <> CallClose -> framed (page_read c f).
Proof.
  intros Hc w out w' H. inversion H; subst. exists [c].
  split; [reflexivity|]. split; [|auto].
  intros Hin. apply list_elem_of_singleton in Hin. congruence.
Qed.

Lemma framed_bind {A B} (m : M Session A) (k : A -> M Session B) :
  framed m -> (forall a, framed (k a)) -> framed (mbind m k).
Proof.
  intros Hm Hk w out w' H. unfold mbind in H.
  destruct (m w) as [[[a|e] w1]|] eqn:E; [| |discriminate].
  - destruct (Hm _ _ _ E) as [m1 H1]. destruct (Hk a _ _ _ H) as [m2 H2].
    eexists. eapply extends_by_trans; eauto.
  - inversion H; subst. eauto.
Qed.

Lemma framed_new_page : framed (new_page ops).
Proof.
  intros w out w' H. unfold new_page in H.
  destruct (op_new_page ops (session w)) as [[u|e] s]; inversion H; subst;
    exists [CallNewPage]; (split; [reflexivity|]); (split; [|auto]);
    intros Hin; apply list_elem_of_singleton in Hin; discriminate.
Qed.

Lemma framed_auto_scroll (delay_ms step : Z) (n : nat) :
  framed (auto_scroll ops delay_ms step n).
Proof.
  induction n as [|n IH]; cbn [auto_scroll]; [apply framed_ret|].
  apply framed_bind; [now apply framed_page_do|]. intros _.
  apply framed_bind; [now apply framed_page_do|]. intros _. exact IH.
Qed.

Lemma framed_wait_for_change (selector old_check : string) (timeout : Z) :
  framed (wait_for_change ops selector old_check timeout).
Proof. now apply framed_page_do. Qed.

End Framing.

Create HintDb framed.

#[local] Hint Resolve framed_ret framed_of_result framed_get_session
  framed_logging framed_emit_logs framed_new_page framed_auto_scroll
  framed_wait_for_change : framed.

(** Proves a computation built from binds of page operations framed. *)
Ltac framed_step :=
  lazymatch goal with
  | |- framed (mbind _ _) => apply framed_bind; [|intros ?]
  | |- framed (page_do _ _) => apply framed_page_do; discriminate
  | |- framed (page_read _ _) => apply framed_page_read; discriminate
  | |- framed (match ?x with _ => _ end) => destruct x
  | |- framed _ => solve [auto with framed]
  end.

Section FramingLoops.
Context {Session Rec : Type}.
Variable ops : PageOps Session.
Variable CounterCardV2 : Schema Rec.
Variable flag : string.
Variable parse_element_func : @ParseElementFunc Session Rec.

Lemma framed_process_cards (cards : list ElementHandle) (st : LaneState Rec) :
  framed (process_cards CounterCardV2 flag parse_element_func cards st).
Proof.
  intros w out w' H.
  destruct (process_cards_world CounterCardV2 flag parse_element_func cards st w)
    as (r & logs & E).
  rewrite E in H. inversion H; subst. exists []. apply extends_by_with_logs.
Qed.

Lemma framed_lane_iteration (scroll_containers : list ElementHandle) (i : nat)
    (st : LaneState Rec) :
  framed (lane_iteration ops CounterCardV2 flag parse_element_func
                         scroll_containers i st).
Proof.
  unfold lane_iteration.
  apply framed_bind; [apply framed_of_result|]. intros container.
  apply framed_bind; [apply framed_page_do; discriminate|]. intros _.
  apply framed_bind; [apply framed_page_read; discriminate|]. intros cards.
  apply framed_bind; [apply framed_process_cards|]. intros st'.
  apply framed_bind; [apply framed_page_read; discriminate|]. intros stop.
  apply framed_ret.
Qed.

Lemma framed_lane_loop (fuel : nat) (scroll_containers : list ElementHandle) (i : nat) :
  forall st,
    framed (lane_loop ops CounterCardV2 flag parse_element_func fuel
                      scroll_containers i st).
Proof.
  induction fuel as [|fuel IH]; intros st.
  - intros w out w' H. discriminate.
  - cbn [lane_loop]. apply framed_bind; [apply framed_lane_iteration|].
    intros [st' stop]. cbn [fst snd]. destruct stop; [apply framed_ret | apply IH].
Qed.

Lemma framed_lanes (fuel : nat) (scroll_containers positions : list ElementHandle) :
  forall i fields common_data,
    framed (lanes ops CounterCardV2 flag parse_element_func fuel
                  scroll_containers positions i fields common_data).
Proof.
  induction positions as [|position rest IH]; intros i fields common_data;
    cbn [lanes]; [apply framed_ret|].
  apply framed_bind; [apply framed_lane_loop|]. intros st. apply IH.
Qed.

Lemma framed_parse_common_section (fuel : nat) (fields : dict FieldSpec) :
  framed (parse_common_section ops CounterCardV2 flag parse_element_func fuel fields).
Proof.
  unfold parse_common_section.
  apply framed_bind; [apply framed_page_do; discriminate|]. intros _.
  apply framed_bind; [apply framed_page_read; discriminate|]. intros containers.
  apply framed_bind; [apply framed_page_read; discriminate|]. intros positions.
  apply framed_lanes.
Qed.

Lemma framed_collect_parsed (schema_cls : Schema Rec) (fields : dict FieldSpec)
    (cards : list ElementHandle) :
  forall out, framed (collect_parsed ops schema_cls fields cards out).
Proof.
  induction cards as [|card rest IH]; intros out; cbn [collect_parsed];
    [apply framed_ret|].
  apply framed_bind; [apply framed_get_session|]. intros s.
  destruct (parse_element _ card schema_cls fields) as [stat logs].
  apply framed_bind; [apply framed_emit_logs|]. intros _. apply IH.
Qed.

End FramingLoops.

#[local] Hint Resolve framed_process_cards framed_lane_iteration framed_lane_loop
  framed_lanes framed_parse_common_section framed_collect_parsed : framed.

Section Closing.
Context {Session Rec Obj Stats : Type}.
Variable ops : PageOps Session.

Lemma close_page_calls (w : World Session) :
  calls (close_page ops w)
  = (calls w ++ (if self_page w then [CallClose] else []))%list.
Proof.
  unfold close_page. destruct (self_page w); [reflexivity | now rewrite app_nil_r].
Qed.

(** A body that opens the page first and then makes framed calls: it is
    framed, and leaves [self.page] set when the page could be opened. *)
Lemma opens_then_framed {A} (rest : M Session A) :
  framed rest ->
  forall w out w1,
    mbind (new_page ops) (fun _ => rest) w = Some (out, w1) ->
    exists mid,
      extends_by w w1 mid
      /\ (fst (op_new_page ops (session w)) = Ok tt -> self_page w1 = true).
Proof.
  intros Hrest w out w1 H.
  destruct (framed_bind (new_page ops) (fun _ => rest)
              (framed_new_page ops) (fun _ => Hrest) _ _ _ H) as [mid Hmid].
  exists mid. split; [exact Hmid|].
  intros Hopen. unfold mbind, new_page in H.
  destruct (op_new_page ops (session w)) as [[u|e] s]; [|discriminate].
  destruct (Hrest _ _ _ H) as (mid' & _ & _ & Hp). now apply Hp.
Qed.

(** What [try ... finally] makes of such a body: the page is closed last,
    and once. *)
Lemma closed_last (w w1 : World Session) (mid : list PageCall) (logs : list LogRecord) :
  extends_by w w1 mid ->
  self_page w1 = true ->
  exists mid',
    calls (close_page ops (mkWorld (session w1) (self_page w1)
                                   (log w1 ++ logs)%list (calls w1)))
    = (calls w ++ mid' ++ [CallClose])%list
    /\ CallClose ∉ mid'.
Proof.
  intros (Hc & Hn & _) Hp. exists mid. rewrite close_page_calls. cbn.
  rewrite Hp, Hc, <- app_assoc. split; [reflexivity | exact Hn].
Qed.

Variable CounterCardV2 : Schema Rec.
Variable ObjectiveInfo :
  option string -> option string -> option string -> option string -> result Obj.
Variable ChampionStats :
  string -> dict Obj -> list (@LaneData Rec) -> list (@LaneData Rec) -> result Stats.

Lemma framed_build_after_change (fuel : nat) (champion : string)
    (common_matchup : list (@LaneData Rec)) (fields : dict FieldSpec) :
  framed (build_after_change ops CounterCardV2 ObjectiveInfo ChampionStats
                             fuel champion common_matchup fields).
Proof.
  unfold build_after_change. repeat framed_step.
Qed.

Lemma build_body_opens (fuel : nat) (champion tier : string) :
  forall w out w1,
    build_body ops CounterCardV2 ObjectiveInfo ChampionStats fuel champion tier w
    = Some (out, w1) ->
    exists mid,
      extends_by w w1 mid
      /\ (fst (op_new_page ops (session w)) = Ok tt -> self_page w1 = true).
Proof.
  intros w out w1 H.
  unfold build_body in H.
  set (url := "https://lolalytics.com/lol/" +:+ py_lower champion
              +:+ "/build/?tier=" +:+ py_lower tier) in H.
  unfold mbind at 1 in H.
  destruct (build_until_click ops CounterCardV2 fuel url w)
    as [[[[[matchup fields] old_check]|e] w0]|] eqn:E; [| |discriminate].
  - apply opens_then_framed in E as (mid0 & H0 & Hp0).
    + assert (Hrest : exists mid1, extends_by w0 w1 mid1).
      { revert H. apply framed_bind; [apply framed_wait_for_change|].
        intros _. apply framed_build_after_change. }
      destruct Hrest as [mid1 H1]. exists (mid0 ++ mid1)%list.
      split; [eapply extends_by_trans; eauto|].
      intros Hopen. destruct H1 as (_ & _ & Hp1). auto.
    + repeat framed_step.
  - inversion H; subst. eapply opens_then_framed; [|exact E].
    repeat framed_step.
Qed.

End Closing.

Section ClosingParsers.
Context {Session Rec Stats : Type}.
Variable ops : PageOps Session.
Variable float_of_str : string -> result decimal.

Lemma with_page_closes {A} (message : string) (rest : M Session A) :
  framed rest ->
  forall w r w',
    with_page ops message (mbind (new_page ops) (fun _ => rest)) w = Some (r, w') ->
    self_page w = true \/ fst (op_new_page ops (session w)) = Ok tt ->
    exists mid,
      calls w' = (calls w ++ mid ++ [CallClose])%list /\ CallClose ∉ mid.
Proof.
  intros Hrest w r w' H Hopen. unfold with_page in H.
  destruct (mbind (new_page ops) (fun _ => rest) w) as [[out w1]|] eqn:E;
    [|discriminate].
  destruct (opens_then_framed ops rest Hrest _ _ _ E) as (mid & Hmid & Hp).
  assert (Hset : self_page w1 = true).
  { destruct Hopen as [Hs|Hn]; [|auto]. destruct Hmid as (_ & _ & Hm). auto. }
  destruct out as [a|e]; inversion H; subst.
  - destruct (closed_last ops w w1 mid [] Hmid Hset) as (mid' & Hc & Hn).
    exists mid'. split; [|exact Hn]. rewrite <- Hc.
    rewrite !close_page_calls. reflexivity.
  - apply (closed_last ops w w1 mid _ Hmid Hset).
Qed.

End ClosingParsers.

(** X10. Each of the three Lolalytics parsers closes the page as its last
    call on it, and closes it once, whether it returns a record or None:
    when the page could be opened (or [self.page] was set already), the
    calls it makes are calls none of which is a close, followed by one
    close. *)
Theorem lolalytics_page_closed_last
    {Session Rec Obj Stats : Type} (ops : PageOps Session)
    (float_of_str : string -> result decimal)
    (schema_cls : Schema Rec)
    (ObjectiveInfo :
       option string -> option string -> option string -> option string -> result Obj)
    (ChampionStats :
       string -> dict Obj -> list (@LaneData Rec) -> list (@LaneData Rec) -> result Stats)
    (MetaStats : list Rec -> result Stats)
    (ChampionCounters : string -> list Rec -> result Stats)
    (fuel : nat) (champion tier : string) (w : World Session) :
  self_page w = true \/ fst (op_new_page ops (session w)) = Ok tt ->
  (forall r w',
      parse_champion_build ops schema_cls ObjectiveInfo ChampionStats
                           fuel champion tier w = Some (r, w') ->
      exists mid,
        calls w' = (calls w ++ mid ++ [CallClose])%list /\ CallClose ∉ mid)
  /\ (forall r w',
        parse_meta_stats ops schema_cls MetaStats tier w = Some (r, w') ->
        exists mid,
          calls w' = (calls w ++ mid ++ [CallClose])%list /\ CallClose ∉ mid)
  /\ (forall r w',
        parse_counters_stats ops float_of_str schema_cls ChampionCounters
                             champion tier w = Some (r, w') ->
        exists mid,
          calls w' = (calls w ++ mid ++ [CallClose])%list /\ CallClose ∉ mid).
Proof.
  intros Hopen. split; [|split].
  - intros r w' H. unfold parse_champion_build in H.
    destruct (build_body ops schema_cls ObjectiveInfo ChampionStats
                         fuel champion tier w) as [[out w1]|] eqn:E; [|discriminate].
    destruct (build_body_opens ops schema_cls ObjectiveInfo ChampionStats
                               fuel champion tier _ _ _ E) as (mid & Hmid & Hp).
    assert (Hset : self_page w1 = true).
    { destruct Hopen as [Hs|Hn]; [|auto]. destruct Hmid as (_ & _ & Hm). auto. }
    destruct out as [a|e]; inversion H; subst.
    + destruct (closed_last ops w w1 mid [] Hmid Hset) as (mid' & Hc & Hn).
      exists mid'. split; [|exact Hn]. rewrite <- Hc.
      rewrite !close_page_calls. reflexivity.
    + apply (closed_last ops w w1 mid _ Hmid Hset).
  - intros r w' H. unfold parse_meta_stats, parse_meta_stats_body in H.
    revert H Hopen. apply with_page_closes. repeat framed_step.
  - intros r w' H. unfold parse_counters_stats, parse_counters_stats_body in H.
    revert H Hopen. apply with_page_closes. repeat framed_step.
Qed.

Lemma lolalytics_page_closed_last_witness :
  (forall r w',
      parse_champion_build TestPage.ops TestPage.card_schema TestPage.objective_info
        (fun _ _ _ _ => Ok tt) 3 "aatrox" "gold"
        (TestPage.start TestPage.overlap_page) = Some (r, w') ->
      exists mid, calls w' = ([] ++ mid ++ [CallClose])%list /\ CallClose ∉ mid)
  /\ (forall r w',
        parse_meta_stats TestPage.ops TestPage.card_schema (fun _ => Ok tt) "gold"
          (TestPage.start TestPage.overlap_page) = Some (r, w') ->
        exists mid, calls w' = ([] ++ mid ++ [CallClose])%list /\ CallClose ∉ mid)
  /\ (forall r w',
        parse_counters_stats TestPage.ops py_float TestPage.card_schema
          (fun _ _ => Ok tt) "aatrox" "gold"
          (TestPage.start TestPage.overlap_page) = Some (r, w') ->
        exists mid, calls w' = ([] ++ mid ++ [CallClose])%list /\ CallClose ∉ mid).
Proof.
  apply (lolalytics_page_closed_last TestPage.ops py_float TestPage.card_schema
           TestPage.objective_info (fun _ _ _ _ => Ok tt) (fun _ => Ok tt)
           (fun _ _ => Ok tt) 3%nat "aatrox" "gold"
           (TestPage.start TestPage.overlap_page)).
  right. reflexivity.
Defined.


(** ** Order and growth of a lane's records *)

Lemma fresh_cards_keys (flag : string) (cards : list ElementHandle) :
  forall seen,
    NoDup (fresh_cards flag seen cards).*2
    /\ forall k, k ∈ (fresh_cards flag seen cards).*2 -> k ∉ seen.
Proof.
  induction cards as [|card rest IH]; intros seen; cbn [fresh_cards].
  - split; [constructor | intros k Hk; inversion Hk].
  - destruct (card_champ flag card) as [champ|e];
      [|split; [constructor | intros k Hk; inversion Hk]].
    destruct (decide (champ ∈ seen)) as [Hin|Hnin]; [apply IH|].
    destruct (IH ({[champ]} ∪ seen)) as [Hnd Hout]. cbn. split.
    + constructor; [|exact Hnd]. intros Hk. apply Hout in Hk. set_solver.
    + intros k Hk. apply elem_of_cons in Hk as [->|Hk]; [exact Hnin|].
      apply Hout in Hk. set_solver.
Qed.

Section Window.
Context {Session Rec : Type}.
Variable CounterCardV2 : Schema Rec.
Variable flag : string.
Variable parse_element_func : @ParseElementFunc Session Rec.

Lemma process_cards_fresh (cards : list ElementHandle) :
  forall st w st' w',
    process_cards CounterCardV2 flag parse_element_func cards st w
    = Some (Ok st', w') ->
    seen_champions st'
    = seen_champions st ∪ list_to_set (fresh_cards flag (seen_champions st) cards).*2
    /\ session w' = session w
    /\ (forall spec, dict_set (counter_fields st') "champion" spec
                     = dict_set (counter_fields st) "champion" spec)
    /\ exists recs,
         counters st' = (counters st ++ recs)%list
         /\ Forall2
              (fun ck r =>
                 exists logs,
                   parse_element_func ck.1 CounterCardV2
                     (dict_set (counter_fields st) "champion"
                               (None, None, Some (const_champ ck.2)))
                     (session w)
                   = (Ok r, logs))
              (fresh_cards flag (seen_champions st) cards) recs.
Proof.
  induction cards as [|card rest IH]; intros st w st' w' H.
  - inversion H; subst. cbn. split; [set_solver|]. split; [reflexivity|].
    split; [reflexivity|]. exists []. rewrite app_nil_r. split; constructor.
  - rewrite process_cards_cons in H.
    pose proof (process_card_cases CounterCardV2 flag parse_element_func card st w)
      as Hc.
    cbn [fresh_cards].
    destruct (card_champ flag card) as [champ|e]; [|rewrite Hc in H; discriminate].
    destruct (decide (champ ∈ seen_champions st)) as [Hin|Hnin].
    + rewrite Hc in H. now apply IH.
    + cbv zeta in Hc.
      destruct (parse_element_func card CounterCardV2 _ (session w))
        as [[parsed|e] logs] eqn:Ep; rewrite Hc in H; [|discriminate].
      apply IH in H as (Hseen & Hsess & Hfields & recs & Hrecs & Hall).
      cbn [seen_champions counters counter_fields] in *.
      split; [rewrite Hseen; cbn; set_solver|].
      split; [exact Hsess|].
      split; [intros spec; now rewrite Hfields, dict_set_set|].
      exists (parsed :: recs). split; [now rewrite Hrecs, <- app_assoc|].
      constructor; [exists logs; exact Ep|].
      eapply Forall2_impl; [exact Hall|].
      intros ck r [logs' Hr]. exists logs'. cbn in Hr.
      now rewrite dict_set_set in Hr.
Qed.

End Window.

(** X11. One query of cards adds to a lane's records the records of the new
    cards and nothing else, in the order of the query: the new cards are
    those whose key was not seen before the query and is not carried by an
    earlier card of the query; their keys are marked seen, and the records
    the lane had stay where they are. *)
Theorem lane_window_order
    {Session Rec : Type} (CounterCardV2 : Schema Rec) (flag : string)
    (parse_element_func : @ParseElementFunc Session Rec)
    (cards : list ElementHandle) (st st' : LaneState Rec) (w w' : World Session) :
  process_cards CounterCardV2 flag parse_element_func cards st w
  = Some (Ok st', w') ->
  seen_champions st'
  = seen_champions st ∪ list_to_set (fresh_cards flag (seen_champions st) cards).*2
  /\ NoDup (fresh_cards flag (seen_champions st) cards).*2
  /\ (forall k, k ∈ (fresh_cards flag (seen_champions st) cards).*2 ->
                k ∉ seen_champions st)
  /\ exists recs,
       counters st' = (counters st ++ recs)%list
       /\ Forall2
            (fun ck r =>
               exists logs,
                 parse_element_func ck.1 CounterCardV2
                   (dict_set (counter_fields st) "champion"
                             (None, None, Some (const_champ ck.2)))
                   (session w)
                 = (Ok r, logs))
            (fresh_cards flag (seen_champions st) cards) recs.
Proof.
  intros H.
  destruct (process_cards_fresh CounterCardV2 flag parse_element_func cards
              _ _ _ _ H) as (Hseen & _ & _ & Hrecs).
  destruct (fresh_cards_keys flag cards (seen_champions st)) as [Hnd Hout].
  auto.
Qed.

Lemma lane_window_order_witness :
  exists st' w' recs,
    process_cards TestPage.card_schema "matchup" (self_parse_element TestPage.ops)
      [TestPage.card_B; TestPage.card_A; TestPage.card_B; TestPage.card_C]
      (mkLane {[Some "Aatrox"]} [] build_counter_fields)
      (TestPage.start TestPage.overlap_page) = Some (Ok st', w')
    /\ (fresh_cards "matchup" {[Some "Aatrox"]}
          [TestPage.card_B; TestPage.card_A; TestPage.card_B; TestPage.card_C]).*2
       = [Some "Brand"; Some "Camille"]
    /\ counters st' = ([] ++ recs)%list /\ length recs = 2%nat.
Proof.
  destruct (process_cards TestPage.card_schema "matchup"
              (self_parse_element TestPage.ops)
              [TestPage.card_B; TestPage.card_A; TestPage.card_B; TestPage.card_C]
              (mkLane {[Some "Aatrox"]} [] build_counter_fields)
              (TestPage.start TestPage.overlap_page))
    as [[[st'|e] w']|] eqn:E; [|vm_compute in E; discriminate..].
  exists st', w'.
  destruct (lane_window_order _ _ _ _ _ _ _ _ E)
    as (_ & _ & _ & recs & Hrecs & Hall).
  exists recs. split; [reflexivity|]. split; [vm_compute; reflexivity|].
  split; [exact Hrecs|]. apply Forall2_length in Hall. rewrite <- Hall.
  vm_compute. reflexivity.
Defined.

(** ** The lane loop on a browser that clamps scrollLeft *)

Section Clamped.
Context {Session Rec : Type}.
Variable ops : PageOps Session.
Variable CounterCardV2 : Schema Rec.
Variable flag : string.
Variable parse_element_func : @ParseElementFunc Session Rec.
Variable scroll_containers : list ElementHandle.
Variable i : nat.
Variable c : ElementHandle.
Hypothesis Hc : scroll_containers !! i = Some c.
Hypothesis Hclamp : clamping ops (node_id c).

(** A pass leaves the page as its scroll step made it. *)
Lemma lane_iteration_scrolls (st : LaneState Rec) (w : World Session) r w' :
  lane_iteration ops CounterCardV2 flag parse_element_func scroll_containers i st w
  = Some (r, w') ->
  session w' = scroll_step ops (node_id c) (session w).
Proof.
  rewrite lane_iteration_unfold, Hc. cbv zeta.
  destruct (process_cards_world CounterCardV2 flag parse_element_func
              (op_query_selector_all ops (cards_selector i)
                 (session (after_scroll ops i (node_id c) w)))
              st (after_scroll ops i (node_id c) w)) as (r1 & logs & ->).
  destruct r1 as [st1|e]; intros H; inversion H; subst; reflexivity.
Qed.

Lemma scroll_step_metrics (s : Session) :
  op_scrollLeft ops (node_id c) (scroll_step ops (node_id c) s)
  = Z.max 0 (Z.min (op_scrollLeft ops (node_id c) s
                    + (op_clientWidth ops (node_id c) s - 100))
                   (op_scrollWidth ops (node_id c) s - op_clientWidth ops (node_id c) s))
  /\ op_clientWidth ops (node_id c) (scroll_step ops (node_id c) s)
     = op_clientWidth ops (node_id c) s
  /\ op_scrollWidth ops (node_id c) (scroll_step ops (node_id c) s)
     = op_scrollWidth ops (node_id c) s.
Proof. apply Hclamp. Qed.

Lemma lane_loop_clamped_returns (n : nat) :
  forall st w,
    100 < op_clientWidth ops (node_id c) (session w) ->
    scroll_gap ops (node_id c) (session w) - 5
    <= Z.of_nat n * (op_clientWidth ops (node_id c) (session w) - 100) ->
    lane_loop ops CounterCardV2 flag parse_element_func (S n)
              scroll_containers i st w <> None.
Proof.
  induction n as [|n IH]; intros st w Hwide Hgap; rewrite lane_loop_S;
    destruct (lane_iteration_some ops CounterCardV2 flag parse_element_func
                scroll_containers i st w) as [[r w1] E]; rewrite E;
    pose proof (lane_iteration_scrolls _ _ _ _ E) as Hs;
    destruct (scroll_step_metrics (session w)) as (Hl & Hcw & Hsw);
    rewrite <- Hs in Hl, Hcw, Hsw;
    (destruct r as [[st1 stop]|e]; [|discriminate]);
    (destruct stop eqn:Estop; [discriminate|]);
    destruct (lane_iteration_stop ops CounterCardV2 flag parse_element_func
                scroll_containers i _ _ _ _ _ E) as (c' & Hc' & Hstop);
    rewrite Hc in Hc'; inversion Hc'; subst c';
    symmetry in Hstop; unfold scroll_exhausted in Hstop;
    rewrite Z.geb_leb in Hstop; apply Z.leb_gt in Hstop; unfold scroll_gap in *.
  - exfalso. lia.
  - apply IH; [lia|]. unfold scroll_gap. nia.
Qed.

Lemma lane_loop_narrow_runs (fuel : nat) :
  forall st w st' w',
    op_clientWidth ops (node_id c) (session w) <= 100 ->
    0 <= op_scrollLeft ops (node_id c) (session w) ->
    op_scrollLeft ops (node_id c) (session w)
    + op_clientWidth ops (node_id c) (session w)
    < op_scrollWidth ops (node_id c) (session w) - 5 ->
    lane_loop ops CounterCardV2 flag parse_element_func fuel
              scroll_containers i st w <> Some (Ok st', w').
Proof.
  induction fuel as [|fuel IH]; intros st w st' w' Hnarrow Hpos Hfar;
    [discriminate|].
  rewrite lane_loop_S.
  destruct (lane_iteration ops CounterCardV2 flag parse_element_func
              scroll_containers i st w) as [[r w1]|] eqn:E; [|discriminate].
  pose proof (lane_iteration_scrolls _ _ _ _ E) as Hs.
  destruct (scroll_step_metrics (session w)) as (Hl & Hcw & Hsw).
  rewrite <- Hs in Hl, Hcw, Hsw.
  destruct r as [[st1 stop]|e]; [|discriminate].
  destruct (lane_iteration_stop ops CounterCardV2 flag parse_element_func
              scroll_containers i _ _ _ _ _ E) as (c' & Hc' & Hstop).
  rewrite Hc in Hc'. inversion Hc'; subst c'.
  assert (Hstill : stop = false).
  { rewrite Hstop. unfold scroll_exhausted. rewrite Z.geb_leb. apply Z.leb_gt. lia. }
  subst stop. rewrite Hstill. apply IH; lia.
Qed.

End Clamped.

Lemma test_page_clamping (node : nat) : clamping TestPage.ops node.
Proof.
  intros v s. unfold clamping. cbn.
  unfold TestPage.lane_metric, TestPage.set_left. cbn.
  rewrite list_lookup_alter.
  destruct (decide (node = node)) as [_|Hne]; [|congruence].
  destruct (TestPage.strips s !! node) as [l|]; cbn.
  - unfold TestPage.clamp. repeat split.
  - repeat split. lia.
Qed.

(** X12. On a browser that keeps scrollLeft inside the scrollable range, a
    lane whose container is wider than 100 pixels is left after a number of
    passes its geometry bounds: with [gap = scrollWidth - clientWidth -
    scrollLeft] at the start and [gap - 5 <= n * (clientWidth - 100)], the
    loop has returned or raised after at most [n + 1] passes. *)
Theorem lane_loop_terminates_when_clamped
    {Session Rec : Type} (ops : PageOps Session) (CounterCardV2 : Schema Rec)
    (flag : string) (parse_element_func : @ParseElementFunc Session Rec)
    (scroll_containers : list ElementHandle) (i : nat) (c : ElementHandle)
    (n : nat) (st : LaneState Rec) (w : World Session) :
  scroll_containers !! i = Some c ->
  clamping ops (node_id c) ->
  100 < op_clientWidth ops (node_id c) (session w) ->
  scroll_gap ops (node_id c) (session w) - 5
  <= Z.of_nat n * (op_clientWidth ops (node_id c) (session w) - 100) ->
  exists out,
    lane_loop ops CounterCardV2 flag parse_element_func (S n)
              scroll_containers i st w = Some out.
Proof.
  intros Hc Hclamp Hwide Hgap.
  pose proof (lane_loop_clamped_returns ops CounterCardV2 flag parse_element_func
                scroll_containers i c Hc Hclamp n st w Hwide Hgap) as H.
  destruct (lane_loop ops CounterCardV2 flag parse_element_func (S n)
              scroll_containers i st w) as [out|]; [eauto | congruence].
Qed.

Lemma lane_loop_terminates_when_clamped_witness :
  exists out,
    lane_loop TestPage.ops TestPage.card_schema "matchup"
              (self_parse_element TestPage.ops) 3
              [TestPage.container 0] 0 (mkLane ∅ [] build_counter_fields)
              (TestPage.start TestPage.overlap_page) = Some out.
Proof.
  apply (lane_loop_terminates_when_clamped TestPage.ops TestPage.card_schema
           "matchup" (self_parse_element TestPage.ops)
           [TestPage.container 0] 0%nat (TestPage.container 0) 2).
  - reflexivity.
  - apply test_page_clamping.
  - vm_compute. reflexivity.
  - vm_compute. discriminate.
Defined.

(** X13. On such a browser a lane whose container is at most 100 pixels wide
    and not yet at its end is never left with a result: the scroll step
    [clientWidth - 100] does not move it forward, so no pass ends the loop,
    whatever the budget. *)
Theorem lane_loop_narrow_viewport_never_returns
    {Session Rec : Type} (ops : PageOps Session) (CounterCardV2 : Schema Rec)
    (flag : string) (parse_element_func : @ParseElementFunc Session Rec)
    (scroll_containers : list ElementHandle) (i : nat) (c : ElementHandle)
    (st : LaneState Rec) (w : World Session) :
  scroll_containers !! i = Some c ->
  clamping ops (node_id c) ->
  op_clientWidth ops (node_id c) (session w) <= 100 ->
  0 <= op_scrollLeft ops (node_id c) (session w) ->
  op_scrollLeft ops (node_id c) (session w)
  + op_clientWidth ops (node_id c) (session w)
  < op_scrollWidth ops (node_id c) (session w) - 5 ->
  forall fuel st' w',
    lane_loop ops CounterCardV2 flag parse_element_func fuel
              scroll_containers i st w <> Some (Ok st', w').
Proof.
  intros Hc Hclamp Hnarrow Hpos Hfar fuel st' w'.
  now apply (lane_loop_narrow_runs ops CounterCardV2 flag parse_element_func
               scroll_containers i c Hc Hclamp fuel).
Qed.

Lemma lane_loop_narrow_viewport_never_returns_witness :
  ~ exists fuel st' w',
      lane_loop TestPage.ops TestPage.card_schema "matchup"
                (self_parse_element TestPage.ops) fuel
                [TestPage.container 0] 0 (mkLane ∅ [] build_counter_fields)
                (TestPage.start TestPage.stuck_page) = Some (Ok st', w').
Proof.
  intros (fuel & st' & w' & H). revert H.
  apply (lane_loop_narrow_viewport_never_returns TestPage.ops TestPage.card_schema
           "matchup" (self_parse_element TestPage.ops)
           [TestPage.container 0] 0%nat (TestPage.container 0)).
  - reflexivity.
  - apply test_page_clamping.
  - vm_compute. discriminate.
  - vm_compute. discriminate.
  - vm_compute. reflexivity.
Defined.

(** ** The shape of a section *)

Section SectionShape.
Context {Session Rec : Type}.
Variable ops : PageOps Session.
Variable CounterCardV2 : Schema Rec.
Variable flag : string.
Variable parse_element_func : @ParseElementFunc Session Rec.

Lemma lanes_shape (fuel : nat) (scroll_containers : list ElementHandle)
    (positions : list ElementHandle) :
  forall i fields common_data w data fields' w',
    lanes ops CounterCardV2 flag parse_element_func fuel scroll_containers
          positions i fields common_data w = Some (Ok (data, fields'), w') ->
    data.*1 = (common_data.*1
               ++ ((fun position => get_attribute position "alt") <$> positions))%list
    /\ (positions = [] \/ (i + length positions <= length scroll_containers)%nat).
Proof.
  induction positions as [|position rest IH];
    intros i fields common_data w data fields' w' H.
  - inversion H; subst. rewrite app_nil_r. auto.
  - rewrite lanes_cons in H.
    destruct (lane_loop ops CounterCardV2 flag parse_element_func fuel
                scroll_containers i (mkLane ∅ [] fields) w)
      as [[[st|e] w1]|] eqn:E; try discriminate.
    destruct (lane_loop_returns ops CounterCardV2 flag parse_element_func
                scroll_containers i fuel _ _ _ _ E)
      as (k & c & _ & _ & Hc & _).
    apply lookup_lt_Some in Hc.
    apply IH in H as [Hdata Hlen]. split.
    + rewrite Hdata, fmap_app, <- app_assoc. reflexivity.
    + right. cbn [length]. destruct Hlen as [->|Hlen]; cbn [length]; lia.
Qed.

End SectionShape.

(** X14. A section that returns has one entry per lane image, labelled with
    the alt texts of the images in page order, and the page held at least as
    many scroll containers as images.  With no image at all the section is
    empty: nothing is scrolled and the field table is handed back as it
    was, whatever the budget. *)
Theorem section_lanes_follow_positions
    {Session Rec : Type} (ops : PageOps Session) (CounterCardV2 : Schema Rec)
    (flag : string) (parse_element_func : @ParseElementFunc Session Rec)
    (fuel : nat) (fields : dict FieldSpec) (w : World Session) :
  (forall data fields' w',
      parse_common_section ops CounterCardV2 flag parse_element_func fuel fields w
      = Some (Ok (data, fields'), w') ->
      exists s,
        op_wait_for_selector ops "div.cursor-grab" 10000 (session w) = (Ok tt, s)
        /\ data.*1
           = ((fun position => get_attribute position "alt")
                <$> op_query_selector_all ops positions_selector s)
        /\ (length (op_query_selector_all ops positions_selector s)
            <= length (op_query_selector_all ops "div.cursor-grab" s))%nat)
  /\ (forall s,
        op_wait_for_selector ops "div.cursor-grab" 10000 (session w) = (Ok tt, s) ->
        op_query_selector_all ops positions_selector s = [] ->
        exists w',
          parse_common_section ops CounterCardV2 flag parse_element_func fuel fields w
          = Some (Ok ([], fields), w')
          /\ session w' = s
          /\ calls w' = (calls w ++ [CallWaitForSelector "div.cursor-grab" 10000;
                                     CallQuerySelectorAll "div.cursor-grab";
                                     CallQuerySelectorAll positions_selector])%list).
Proof.
  split.
  - intros data fields' w' H.
    destruct (op_wait_for_selector ops "div.cursor-grab" 10000 (session w))
      as [[[]|e] s] eqn:Ew.
    + rewrite (parse_common_section_unfold ops CounterCardV2 flag
                 parse_element_func fuel fields w s Ew) in H.
      apply lanes_shape in H as [Hdata Hlen]. exists s.
      split; [reflexivity|]. split; [exact Hdata|].
      destruct Hlen as [->|Hlen]; cbn [length]; lia.
    + unfold parse_common_section, mbind, page_do in H. rewrite Ew in H.
      discriminate.
  - intros s Ew Hnil.
    rewrite (parse_common_section_unfold ops CounterCardV2 flag
               parse_element_func fuel fields w s Ew), Hnil.
    eexists. split; [reflexivity|]. split; [reflexivity|].
    cbn. rewrite <- !app_assoc. reflexivity.
Qed.

Lemma section_lanes_follow_positions_witness :
  exists data fields' w',
    parse_common_section TestPage.ops TestPage.card_schema "matchup"
      (self_parse_element TestPage.ops) 5 build_counter_fields
      (TestPage.start TestPage.overlap_page) = Some (Ok (data, fields'), w')
    /\ data.*1 = [Some "top"].
Proof.
  destruct (parse_common_section TestPage.ops TestPage.card_schema "matchup"
              (self_parse_element TestPage.ops) 5 build_counter_fields
              (TestPage.start TestPage.overlap_page))
    as [[[[data fields']|e] w']|] eqn:E; [|vm_compute in E; discriminate..].
  exists data, fields', w'. split; [reflexivity|].
  destruct (proj1 (section_lanes_follow_positions TestPage.ops TestPage.card_schema
                     "matchup" (self_parse_element TestPage.ops) 5
                     build_counter_fields (TestPage.start TestPage.overlap_page))
                  _ _ _ E) as (s & Hs & Hd & _).
  rewrite Hd. vm_compute in Hs. inversion Hs; subst s. vm_compute. reflexivity.
Defined.

(** ** Tables of plain fields *)

Section PlainFields.
Context {Rec : Type}.
Variable page_query : string -> result (option ElementHandle).
Variable element : ElementHandle.

Lemma extract_text_missing (sel : string) :
  query_selector element sel = Ok None ->
  extract_text page_query sel (Some element) = (None, []).
Proof. intros H. unfold extract_text, extract_text_body. now rewrite H. Qed.

Lemma extract_number_missing (sel : string) :
  query_selector element sel = Ok None ->
  extract_number page_query sel (Some element) = (None, []).
Proof. intros H. unfold extract_number. now rewrite extract_text_missing. Qed.

Lemma field_value_plain (spec : FieldSpec) :
  plain_field spec ->
  exists v logs,
    field_value page_query element spec = (Ok v, logs)
    /\ forall sel, spec.1.1 = Some sel ->
                   query_selector element sel = Ok None -> v = VNone.
Proof.
  intros (sel & kind & -> & Hsel & Hkind).
  destruct sel as [|c sel]; [discriminate|]. unfold field_value, raw_value.
  destruct Hkind as [->| ->].
  - destruct (extract_text page_query (String c sel) (Some element))
      as [t logs] eqn:Et.
    exists (value_of_text t), logs. cbn. split; [reflexivity|].
    intros sel' Hs Hq. inversion Hs; subst sel'.
    rewrite (extract_text_missing _ Hq) in Et. now inversion Et.
  - destruct (extract_number page_query (String c sel) (Some element))
      as [n logs] eqn:En.
    exists (value_of_number n), logs. cbn. split; [reflexivity|].
    intros sel' Hs Hq. inversion Hs; subst sel'.
    rewrite (extract_number_missing _ Hq) in En. now inversion En.
Qed.

(** The fields after a name do not touch it when none of them has it. *)
Lemma parse_fields_other (fields : dict FieldSpec) (name : string) :
  forall values vals logs,
    parse_fields page_query element fields values = (Ok vals, logs) ->
    name ∉ fields.*1 ->
    dict_get vals name = dict_get values name.
Proof.
  induction fields as [|[name' spec] rest IH]; intros values vals logs H Hn;
    cbn in H.
  - now inversion H.
  - destruct (field_value page_query element spec) as [[v|e] l0]; [|discriminate].
    destruct (parse_fields page_query element rest (dict_set values name' v))
      as [r' l'] eqn:Er.
    inversion H; subst. cbn in Hn. apply not_elem_of_cons in Hn as [Hne Hn].
    rewrite (IH _ _ _ Er Hn). apply dict_get_set_ne. congruence.
Qed.

Lemma parse_fields_plain (fields : dict FieldSpec) :
  Forall (fun field => plain_field field.2) fields ->
  forall values, exists vals logs,
    parse_fields page_query element fields values = (Ok vals, logs)
    /\ (forall name,
          is_Some (dict_get vals name)
          <-> is_Some (dict_get values name) \/ name ∈ fields.*1)
    /\ (NoDup fields.*1 ->
        forall name sel kind,
          (name, (Some sel, Some kind, None)) ∈ fields ->
          query_selector element sel = Ok None ->
          dict_get vals name = Some VNone).
Proof.
  induction 1 as [|[name spec] rest Hspec Hrest IH]; intros values.
  - exists values, []. split; [reflexivity|]. split.
    + intros name. split; [auto|]. intros [H|H]; [exact H | inversion H].
    + intros _ name sel kind Hin. inversion Hin.
  - cbn [parse_fields].
    destruct (field_value_plain spec Hspec) as (v & l0 & -> & Hv).
    destruct (IH (dict_set values name v)) as (vals & logs & E & Hkeys & Hnone).
    rewrite E. exists vals, (l0 ++ logs)%list. split; [reflexivity|]. split.
    + intros k. rewrite Hkeys. cbn. rewrite elem_of_cons.
      destruct (String.eqb_spec name k) as [->|Hne].
      * rewrite dict_get_set_eq. split; eauto.
      * rewrite (dict_get_set_ne _ _ _ _ Hne). split.
        -- intros [H|H]; auto.
        -- intros [H|[H|H]]; auto. congruence.
    + intros Hnd k sel kind Hin Hq. cbn in Hnd. apply NoDup_cons in Hnd as [Hk Hnd].
      apply elem_of_cons in Hin as [Heq|Hin].
      * inversion Heq; subst.
        rewrite (parse_fields_other _ _ _ _ _ E Hk), dict_get_set_eq.
        f_equal. now apply (Hv sel).
      * now apply (Hnone Hnd k sel kind).
Qed.

End PlainFields.

Lemma meta_fields_plain : Forall (fun field => plain_field field.2) meta_fields.
Proof.
  unfold meta_fields.
  repeat (constructor; [eexists _, _; split; [reflexivity|]; split; [reflexivity|];
                        first [left; reflexivity | right; reflexivity]|]).
  constructor.
Qed.

(** X15. A table of plain fields, as the one of parse_meta_stats, never makes
    parse_element fail before the record class is called: the keyword
    arguments are the names of the table, a field whose element is not
    there is None, and the element is dropped only if the record class
    rejects the arguments. *)
Theorem parse_element_plain_fields
    {Rec : Type} (page_query : string -> result (option ElementHandle))
    (element : ElementHandle) (schema_cls : Schema Rec) (fields : dict FieldSpec) :
  Forall (fun field => plain_field field.2) fields ->
  exists values logs,
    parse_fields page_query element fields [] = (Ok values, logs)
    /\ (forall name, is_Some (dict_get values name) <-> name ∈ fields.*1)
    /\ (NoDup fields.*1 ->
        forall name sel kind,
          (name, (Some sel, Some kind, None)) ∈ fields ->
          query_selector element sel = Ok None ->
          dict_get values name = Some VNone)
    /\ fst (parse_element page_query element schema_cls fields)
       = match construct schema_cls values with
         | Ok rec => Some rec
         | Raise _ => None
         end.
Proof.
  intros Hplain.
  destruct (parse_fields_plain page_query element fields Hplain [])
    as (values & logs & E & Hkeys & Hnone).
  exists values, logs. split; [exact E|]. split.
  - intros name. rewrite Hkeys. cbn. split; [|auto].
    intros [[x Hx]|H]; [discriminate | exact H].
  - split; [exact Hnone|].
    unfold parse_element, parse_element_body. rewrite E. unfold rbind.
    destruct (construct schema_cls values); reflexivity.
Qed.

Lemma parse_element_plain_fields_witness :
  exists values,
    fst (parse_fields (fun _ => Ok None) TestPage.card_A meta_fields [])
    = Ok values
    /\ dict_get values "win" = Some VNone
    /\ fst (parse_element (fun _ => Ok None) TestPage.card_A
                          TestPage.plain_schema meta_fields)
       = Some values.
Proof.
  destruct (parse_element_plain_fields (fun _ => Ok None) TestPage.card_A
              TestPage.plain_schema meta_fields meta_fields_plain)
    as (values & logs & E & _ & Hnone & Hp).
  exists values. rewrite E. split; [reflexivity|]. split; [|exact Hp].
  apply (Hnone ltac:(vm_compute; repeat constructor; set_solver)
               "win" "div:nth-child(6) > div > span:nth-child(1)" "number").
  - unfold meta_fields. set_solver.
  - reflexivity.
Defined.

(** ** The rows of the tier list and the cards of the counters page *)

Lemma mbind_ok {Session A B} (m : M Session A) (k : A -> M Session B)
    (w w1 : World Session) (a : A) :
  m w = Some (Ok a, w1) -> mbind m k w = k a w1.
Proof. unfold mbind. now intros ->. Qed.

Section Rows.
Context {Session Rec Stats : Type}.
Variable ops : PageOps Session.

Lemma auto_scroll_spec (delay_ms step : Z) (n : nat) :
  forall w, exists w',
    auto_scroll ops delay_ms step n w = Some (Ok tt, w')
    /\ session w' = scrolled ops delay_ms step n (session w)
    /\ self_page w' = self_page w.
Proof.
  induction n as [|n IH]; intros w; cbn [auto_scroll scrolled].
  - exists w. auto.
  - destruct (IH (mkWorld (op_wait_for_timeout ops delay_ms
                             (op_mouse_wheel ops 0 step (session w)))
                          (self_page w) (log w)
                          ((calls w ++ [CallMouseWheel 0 step])
                             ++ [CallWaitForTimeout delay_ms])%list))
      as (w' & E & Hs & Hp).
    exists w'. split; [exact E | auto].
Qed.

Lemma mapped_records_cons (schema_cls : Schema Rec) (fields : dict FieldSpec)
    (s : Session) (card : ElementHandle) (rest : list ElementHandle) :
  mapped_records ops schema_cls fields s (card :: rest)
  = match fst (parse_element (fun sel => Ok (op_query_selector ops sel s))
                             card schema_cls fields) with
    | Some r => r :: mapped_records ops schema_cls fields s rest
    | None => mapped_records ops schema_cls fields s rest
    end.
Proof. reflexivity. Qed.

Lemma collect_parsed_spec (schema_cls : Schema Rec) (fields : dict FieldSpec)
    (cards : list ElementHandle) :
  forall out w, exists logs,
    collect_parsed ops schema_cls fields cards out w
    = Some (Ok (out ++ mapped_records ops schema_cls fields (session w) cards)%list,
            with_logs w logs).
Proof.
  induction cards as [|card rest IH]; intros out w.
  - exists []. cbn. now rewrite app_nil_r, with_logs_nil.
  - cbn [collect_parsed]. unfold mbind at 1, get_session.
    rewrite mapped_records_cons.
    destruct (parse_element (fun sel => Ok (op_query_selector ops sel (session w)))
                            card schema_cls fields) as [stat logs].
    unfold mbind at 1, emit_logs.
    destruct (IH (match stat with Some r => (out ++ [r])%list | None => out end)
                 (with_logs w logs)) as (logs' & E).
    unfold with_logs at 1 in E. rewrite E.
    exists (logs ++ logs')%list. rewrite with_logs_app. cbn [fst].
    change (session (with_logs w logs)) with (session w).
    destruct stat as [r|]; [rewrite <- app_assoc|]; reflexivity.
Qed.

Lemma rows_check_spec {A} (message : string) (rows : list A) (w : World Session) :
  exists w',
    (match rows with
     | [] => logging ERROR message
     | _ => mret tt
     end) w = Some (Ok tt, w')
    /\ session w' = session w /\ self_page w' = self_page w.
Proof. destruct rows; eexists; (split; [reflexivity|]); auto. Qed.

Lemma with_page_ok {A} (message : string) (body : M Session A)
    (w w1 : World Session) (r : result A) :
  body w = Some (r, w1) ->
  self_page w1 = true ->
  exists w',
    with_page ops message body w
    = Some (match r with Ok a => Some a | Raise _ => None end, w')
    /\ session w' = op_close ops (session w1).
Proof.
  intros E Hp. unfold with_page, close_page. rewrite E.
  destruct r as [a|e]; cbn [self_page session]; rewrite Hp;
    eexists; split; reflexivity.
Qed.

End Rows.

(** X16. When the page opens and loads, parse_meta_stats scrolls fifty wheel
    steps, reads the rows of the tier list once and leaves out the first
    two: MetaStats is built from the records parse_element gives for the
    other rows, in page order, the rows it gives none for dropped; with two
    rows or fewer the list is empty.  parse_counters_stats builds
    ChampionCounters in the same way from all the cards, for the champion
    as it was passed.  The result is None only if the stats class rejects
    the list. *)
Theorem lolalytics_rows_are_mapped_in_order
    {Session Rec Stats : Type} (ops : PageOps Session)
    (float_of_str : string -> result decimal)
    (schema_cls : Schema Rec)
    (MetaStats : list Rec -> result Stats)
    (ChampionCounters : string -> list Rec -> result Stats)
    (champion tier : string) (w : World Session) (s1 s2 s2' : Session) :
  op_new_page ops (session w) = (Ok tt, s1) ->
  op_goto ops ("https://lolalytics.com/lol/tierlist/?tier=" +:+ py_lower tier) s1
  = (Ok tt, s2) ->
  op_goto ops ("https://lolalytics.com/lol/" +:+ py_lower champion
               +:+ "/counters/?tier=" +:+ py_lower tier) s1
  = (Ok tt, s2') ->
  (exists w',
      parse_meta_stats ops schema_cls MetaStats tier w
      = Some (match MetaStats
                      (mapped_records ops schema_cls meta_fields
                         (scrolled ops 10 300 50 s2)
                         (drop 2 (op_query_selector_all ops meta_rows_selector
                                    (scrolled ops 10 300 50 s2)))) with
              | Ok stats => Some stats
              | Raise _ => None
              end, w')
      /\ session w' = op_close ops (scrolled ops 10 300 50 s2))
  /\ (exists w',
        parse_counters_stats ops float_of_str schema_cls ChampionCounters
                             champion tier w
        = Some (match ChampionCounters champion
                        (mapped_records ops schema_cls
                           (counters_fields float_of_str) s2'
                           (op_query_selector_all ops counter_cards_selector s2')) with
                | Ok stats => Some stats
                | Raise _ => None
                end, w')
        /\ session w' = op_close ops s2').
Proof.
  intros Hnew Hgoto Hgoto'. split.
  - unfold parse_meta_stats.
    set (s3 := scrolled ops 10 300 50 s2).
    set (w1 := mkWorld s1 true (log w) (calls w ++ [CallNewPage])%list).
    set (w2 := mkWorld s2 true (log w1)
                 (calls w1 ++ [CallGoto ("https://lolalytics.com/lol/tierlist/?tier="
                                         +:+ py_lower tier)])%list).
    destruct (auto_scroll_spec ops 10 300 50 w2) as (w3 & E3 & Hs3 & Hp3).
    set (rows := op_query_selector_all ops meta_rows_selector s3).
    set (w4 := mkWorld (session w3) (self_page w3) (log w3)
                 (calls w3 ++ [CallQuerySelectorAll meta_rows_selector])%list).
    destruct (rows_check_spec "Row selector not found" rows w4)
      as (w5 & E5 & Hs5 & Hp5).
    destruct (collect_parsed_spec ops schema_cls meta_fields (drop 2 rows) [] w5)
      as (logs & E6).
    assert (Hs : session w5 = s3) by (rewrite Hs5; exact Hs3).
    assert (Hbody : parse_meta_stats_body ops schema_cls MetaStats tier w
                    = Some (MetaStats (mapped_records ops schema_cls meta_fields s3
                                         (drop 2 rows)),
                            with_logs w5 logs)).
    { unfold parse_meta_stats_body.
      rewrite (mbind_ok _ _ w w1 tt) by (unfold new_page; now rewrite Hnew).
      rewrite (mbind_ok _ _ w1 w2 tt) by (unfold page_do; cbn; now rewrite Hgoto).
      rewrite (mbind_ok _ _ w2 w3 tt E3).
      rewrite (mbind_ok _ _ w3 w4 (op_query_selector_all ops meta_rows_selector
                                     (session w3))) by reflexivity.
      rewrite Hs3. cbn [session w2]. fold s3. fold rows.
      rewrite (mbind_ok _ _ w4 w5 tt E5).
      rewrite (mbind_ok _ _ w5 _ _ E6). rewrite Hs. reflexivity. }
    destruct (with_page_ok ops "Error parsing meta stats" _ _ _ _ Hbody)
      as (w' & E & Hs').
    { cbn. rewrite Hp5. cbn. exact Hp3. }
    exists w'. split; [exact E|]. rewrite Hs'. cbn. now rewrite Hs.
  - unfold parse_counters_stats.
    set (url := "https://lolalytics.com/lol/" +:+ py_lower champion
                +:+ "/counters/?tier=" +:+ py_lower tier) in *.
    set (w1 := mkWorld s1 true (log w) (calls w ++ [CallNewPage])%list).
    set (w2 := mkWorld s2' true (log w1) (calls w1 ++ [CallGoto url])%list).
    set (cards := op_query_selector_all ops counter_cards_selector s2').
    set (w4 := mkWorld s2' true (log w2)
                 (calls w2 ++ [CallQuerySelectorAll counter_cards_selector])%list).
    destruct (rows_check_spec "Card selector not found" cards w4)
      as (w5 & E5 & Hs5 & Hp5).
    destruct (collect_parsed_spec ops schema_cls (counters_fields float_of_str)
                cards [] w5) as (logs & E6).
    assert (Hs : session w5 = s2') by exact Hs5.
    assert (Hbody : parse_counters_stats_body ops float_of_str schema_cls
                      ChampionCounters champion tier w
                    = Some (ChampionCounters champion
                              (mapped_records ops schema_cls
                                 (counters_fields float_of_str) s2' cards),
                            with_logs w5 logs)).
    { unfold parse_counters_stats_body. fold url.
      rewrite (mbind_ok _ _ w w1 tt) by (unfold new_page; now rewrite Hnew).
      rewrite (mbind_ok _ _ w1 w2 tt) by (unfold page_do; cbn; now rewrite Hgoto').
      rewrite (mbind_ok _ _ w2 w4 cards) by reflexivity.
      rewrite (mbind_ok _ _ w4 w5 tt E5).
      rewrite (mbind_ok _ _ w5 _ _ E6). rewrite Hs. reflexivity. }
    destruct (with_page_ok ops "Error parsing counter stats" _ _ _ _ Hbody)
      as (w' & E & Hs').
    { cbn. rewrite Hp5. reflexivity. }
    exists w'. split; [exact E|]. rewrite Hs'. cbn. now rewrite Hs.
Qed.

Lemma lolalytics_rows_are_mapped_in_order_witness :
  (exists champions w',
      parse_meta_stats (RowsPage.ops RowsPage.tier_rows RowsPage.counter_cards)
                       RowsPage.whole_games_schema
                       (fun champions => Ok champions) "Gold"
                       (mkWorld tt false [] [])
      = Some (Some champions, w')
      /\ (fun champion => dict_get champion "name") <$> champions
         = [Some (VStr "Ahri"); Some (VStr "Zed")])
  /\ (exists counters w',
        parse_counters_stats (RowsPage.ops RowsPage.tier_rows RowsPage.counter_cards)
                             py_float RowsPage.whole_games_schema
                             (fun _ counters => Ok counters) "Aatrox" "Gold"
                             (mkWorld tt false [] [])
        = Some (Some counters, w')
        /\ (fun counter => dict_get counter "champion") <$> counters
           = [Some (VStr "Darius"); Some (VStr "Garen")]).
Proof.
  destruct (lolalytics_rows_are_mapped_in_order
              (RowsPage.ops RowsPage.tier_rows RowsPage.counter_cards) py_float
              RowsPage.whole_games_schema (fun champions => Ok champions)
              (fun _ counters => Ok counters) "Aatrox" "Gold"
              (mkWorld tt false [] []) tt tt tt eq_refl eq_refl eq_refl)
    as [(w' & E & _) (w'' & E' & _)].
  split.
  - eexists _, w'. split.
    + rewrite E. vm_compute. reflexivity.
    + vm_compute. reflexivity.
  - eexists _, w''. split.
    + rewrite E'. vm_compute. reflexivity.
    + vm_compute. reflexivity.
Defined.

(** X17. A card of the counters page one of whose two delta spans is not
    there gives no record: the transform of the field subscripts None,
    parse_element catches the TypeError, and the card is left out of the
    list ChampionCounters is built from, the cards around it kept. *)
Theorem counters_card_without_delta_is_dropped
    {Session Rec : Type} (ops : PageOps Session)
    (float_of_str : string -> result decimal)
    (CounterCard : Schema Rec) (card : ElementHandle) :
  query_selector card delta_1_selector = Ok None
  \/ query_selector card delta_2_selector = Ok None ->
  (forall page_query,
      fst (parse_element page_query card CounterCard (counters_fields float_of_str))
      = None)
  /\ (forall s before after,
        mapped_records ops CounterCard (counters_fields float_of_str) s
                       (before ++ card :: after)
        = (mapped_records ops CounterCard (counters_fields float_of_str) s before
           ++ mapped_records ops CounterCard (counters_fields float_of_str) s after)%list).
Proof.
  intros Hmissing.
  assert (Hdrop : forall page_query,
             fst (parse_element page_query card CounterCard
                                (counters_fields float_of_str)) = None).
  { intros page_query.
    assert (Hfault : exists name sel,
               (name, (Some sel, Some "text", Some (delta_transform float_of_str)))
               ∈ counters_fields float_of_str
               /\ fst (field_value page_query card
                         (Some sel, Some "text", Some (delta_transform float_of_str)))
                  = Raise TypeError).
    { destruct Hmissing as [H|H].
      - exists "delta_1", delta_1_selector. split.
        + unfold counters_fields. rewrite !elem_of_cons. auto.
        + unfold field_value, raw_value.
          rewrite (extract_text_missing page_query card _ H). reflexivity.
      - exists "delta_2", delta_2_selector. split.
        + unfold counters_fields. rewrite !elem_of_cons. auto 6.
        + unfold field_value, raw_value.
          rewrite (extract_text_missing page_query card _ H). reflexivity. }
    destruct Hfault as (name & sel & Hin & Hv).
    destruct (parse_fields_fault page_query card _ _ _ _ Hin Hv []) as (e' & logs & E).
    unfold parse_element, parse_element_body. rewrite E. reflexivity. }
  split; [exact Hdrop|].
  intros s before after. unfold mapped_records.
  rewrite omap_app. f_equal. cbn. now rewrite Hdrop.
Qed.

Lemma counters_card_without_delta_is_dropped_witness :
  fst (parse_element (fun _ => Ok None) TestPage.card_A TestPage.plain_schema
                     (counters_fields py_float))
  = None.
Proof.
  apply (counters_card_without_delta_is_dropped TestPage.ops py_float
           TestPage.plain_schema TestPage.card_A).
  left. reflexivity.
Defined.
